(** * APO evaluator: a shallow embedding of [apo/scripts/evaluator.py]

    The script scores a free-text audit report against an answer key.  Its
    functions are embedded one by one, under their source names:
    [normalize_verdict], [score_verdict], [score_reasoning],
    [parse_audit_output] and [evaluate], together with the fixed tables
    [VERDICT_GROUPS] and [KEY_CONCEPTS].

    Conventions of the embedding.
    - A Python [str] is a [string]: the byte sequence of its UTF-8 encoding.
      Splitting, prefix and substring tests and replacement act on these bytes
      exactly as they act on code points, because every pattern of the script
      is a complete UTF-8 sequence.  Case mapping and the whitespace class are
      those of the ASCII range; bytes above 127 are left alone.  So [upper],
      [lower] and [strip] are Python's on the strings made of ASCII
      characters ([isascii]), and a statement that depends on how the case
      of a string is changed is made for those strings.
    - A Python [dict] with fixed content is a [gmap]; the dict built from the
      answer key, whose iteration order matters, is an association list kept
      in insertion order.
    - Exceptions are values of [exn], threaded by the monad [res].
    - [evaluate] takes the answer key as [json.loads] returns it; reading
      the two files and printing the report are outside the embedding.
    - A [float] is a binary64 number, given by an integer significand and a
      binary exponent; arithmetic rounds to nearest, ties to even. *)

From stdpp Require Import gmap strings list fin_maps.
From Stdlib Require Import ZArith Ascii String QArith Lia.
From Stdlib Require SpecFloat.

Close Scope Q_scope.
Open Scope string_scope.

(** ** Python strings *)

Module PyStr.

Definition LF : ascii := ascii_of_nat 10.

(** [c.upper()] and [c.lower()] on one ASCII character. *)
Definition upper_char (c : ascii) : ascii :=
  let n := nat_of_ascii c in
  if (97 <=? n)%nat && (n <=? 122)%nat then ascii_of_nat (n - 32) else c.

Definition lower_char (c : ascii) : ascii :=
  let n := nat_of_ascii c in
  if (65 <=? n)%nat && (n <=? 90)%nat then ascii_of_nat (n + 32) else c.

Fixpoint map_chars (f : ascii -> ascii) (s : string) : string :=
  match s with
  | EmptyString => EmptyString
  | String c s' => String (f c) (map_chars f s')
  end.

Definition upper (s : string) : string := map_chars upper_char s.
Definition lower (s : string) : string := map_chars lower_char s.

(** [c.isspace()]: tab, line feed, vertical tab, form feed, carriage
    return, the four separators 0x1c-0x1f and the space. *)
Definition is_space (c : ascii) : bool :=
  let n := nat_of_ascii c in
  ((9 <=? n)%nat && (n <=? 13)%nat) || ((28 <=? n)%nat && (n <=? 32)%nat).

Fixpoint lstrip (s : string) : string :=
  match s with
  | EmptyString => EmptyString
  | String c s' => if is_space c then lstrip s' else s
  end.

Definition is_empty (s : string) : bool :=
  match s with EmptyString => true | _ => false end.

Fixpoint rstrip (s : string) : string :=
  match s with
  | EmptyString => EmptyString
  | String c s' =>
      let r := rstrip s' in
      if is_space c && is_empty r then EmptyString else String c r
  end.

(** [s.strip()] *)
Definition strip (s : string) : string := rstrip (lstrip s).

(** [s.startswith(p)] *)
Definition startswith (s p : string) : bool := String.prefix p s.

(** [sub in s] *)
Fixpoint contains (sub s : string) : bool :=
  String.prefix sub s ||
  match s with
  | EmptyString => false
  | String _ s' => contains sub s'
  end.

(** [s.replace(old, new)] for a non-empty [old]: scan from the left, and
    after a match resume behind it.  [skip] counts the characters of the
    current match that are still to be dropped. *)
Fixpoint replace_from (skip : nat) (old new s : string) : string :=
  match s with
  | EmptyString => EmptyString
  | String c s' =>
      match skip with
      | S k => replace_from k old new s'
      | O =>
          if String.prefix old s
          then new ++ replace_from (String.length old - 1) old new s'
          else String c (replace_from 0 old new s')
      end
  end.

(** With an empty [old], Python puts [new] before every character and at
    the end. *)
Fixpoint intersperse (new s : string) : string :=
  match s with
  | EmptyString => new
  | String c s' => new ++ String c (intersperse new s')
  end.

Definition replace (old new s : string) : string :=
  if is_empty old then intersperse new s else replace_from 0 old new s.

(** [s.split(sep)] for a one-character separator, the only kind the script
    uses.  The result is never empty: [split sep ""] is [[""]]. *)
Fixpoint split (sep : ascii) (s : string) : list string :=
  match s with
  | EmptyString => [EmptyString]
  | String c s' =>
      if Ascii.eqb c sep then EmptyString :: split sep s'
      else match split sep s' with
           | h :: t => String c h :: t
           | [] => [String c EmptyString]
           end
  end.

(** The slice [l[1:-1]]. *)
Definition slice_1_m1 {A} (l : list A) : list A := removelast (tail l).

End PyStr.

(** ** The fixed tables *)

(** Verdict categories for near-miss scoring. *)
Definition VERDICT_GROUPS : gmap string string :=
  list_to_map
    [ ("KEEP", "keep");
      ("REMOVE", "remove");
      ("TRIM", "trim");
      ("MOVE_NESTED", "move");
      ("MOVE_HOOK", "move") ].

(** Key concepts per case that should appear in reasoning. *)
Definition KEY_CONCEPTS : gmap string (gmap string (list string)) :=
  list_to_map
    [ ("case-01-bloated-generic",
        list_to_map
          [ ("Code Style", ["baked-in"; "model already knows"; "built-in"]);
            ("Security", ["OWASP"; "baked-in"; "model already knows"]);
            ("My Project Structure", ["discoverable"; "filesystem"; "read"]);
            ("Python Preferences", ["nested"; "only relevant when"; "Python files"]) ]);
      ("case-02-mixed-quality",
        list_to_map
          [ ("Never Modify Legacy API", ["hook"; "PCI"; "compliance"; "block"]);
            ("Secrets Management", ["team-specific"; "AWS"; "access pattern"]);
            ("Testing", ["discoverable"; "package.json"; "generic"]) ]);
      ("case-03-already-lean",
        list_to_map
          [ ("Forbidden Actions", ["hook"; "guaranteed"; "enforcement"]) ]);
      ("case-04-subtle-traps",
        list_to_map
          [ ("Data Model Conventions", ["HIPAA"; "retention"; "compliance"]);
            ("Code Quality", ["generic"; "discoverable"; "config"]) ]);
      ("case-05-hook-candidates",
        list_to_map
          [ ("Absolute Rules", ["hook"; "PreToolUse"; "guaranteed"]);
            ("DO NOT TOUCH", ["hook"; "block"; "Edit"; "Write"]) ]) ].

(** The alias table local to [normalize_verdict]. *)
Definition mappings : gmap string string :=
  list_to_map
    [ ("MOVE", "MOVE_NESTED");
      ("MOVE_TO_NESTED", "MOVE_NESTED");
      ("MOVE_TO_HOOK", "MOVE_HOOK");
      ("HOOK", "MOVE_HOOK");
      ("DELETE", "REMOVE");
      ("DROP", "REMOVE") ].

(** ** Verdicts *)

(** Normalize an audit verdict to the canonical form. *)
Definition normalize_verdict (raw : string) : string :=
  let v :=
    PyStr.replace "->" ""
      (PyStr.replace "→" ""
         (PyStr.replace " " "_" (PyStr.strip (PyStr.upper raw)))) in
  default v (mappings !! v).

(** Score a single verdict: 2 = exact, 1 = near-miss, 0 = wrong.
    [d.get(k)] is the lookup [d !! k], with [None] for an absent key, and
    [==] on the two results is equality of options. *)
Definition score_verdict (actual expected : string) : Z :=
  let a := normalize_verdict actual in
  let e := normalize_verdict expected in
  if bool_decide (a = e) then 2%Z
  else if bool_decide (VERDICT_GROUPS !! a = VERDICT_GROUPS !! e) then 1%Z
  else 0%Z.

(** Bonus point if the reasoning mentions a key concept. *)
Definition score_reasoning (reason case_id section_name : string) : Z :=
  let concepts :=
    default [] (default ∅ (KEY_CONCEPTS !! case_id) !! section_name) in
  match concepts with
  | [] => 0%Z
  | _ =>
      let reason_lower := PyStr.lower reason in
      if existsb (fun c => PyStr.contains (PyStr.lower c) reason_lower) concepts
      then 1%Z else 0%Z
  end.

(** ** Exceptions *)

Inductive exn :=
| KeyError (key : string)
| ZeroDivisionError
| OverflowError.

Inductive res (A : Type) :=
| Ok (a : A)
| Raise (e : exn).
Arguments Ok {A} a.
Arguments Raise {A} e.

#[global] Instance res_ret : MRet res := fun A a => Ok a.

#[global] Instance res_bind : MBind res := fun A B k r =>
  match r with
  | Ok a => k a
  | Raise e => Raise e
  end.

(** [d[k]] on a dict with string keys. *)
Definition getitem {V} (d : gmap string V) (k : string) : res V :=
  match d !! k with
  | Some v => Ok v
  | None => Raise (KeyError k)
  end.

(** ** Binary64 arithmetic *)

Module F64.
Import SpecFloat.

Definition prec : Z := 53.
Definition emax : Z := 1024.
(** Exponent of the least subnormal number. *)
Definition emin : Z := -1074.

(** [2^k] for [0 <= k], and 1 below. *)
Definition pow2 (k : Z) : Z := 2 ^ Z.max 0 k.

(** The integer nearest to [n/d], ties to the even one ([0 <= n], [0 < d]). *)
Definition div_rne (n d : Z) : Z :=
  let q := (n / d)%Z in
  match (2 * (n mod d) ?= d)%Z with
  | Lt => q
  | Gt => (q + 1)%Z
  | Eq => if Z.even q then q else (q + 1)%Z
  end.

(** The integer part of the binary logarithm of [n/d] ([0 < n], [0 < d]). *)
Definition floor_log2_frac (n d : Z) : Z :=
  let l := (Z.log2 n - Z.log2 d)%Z in
  if (d * pow2 l <=? n * pow2 (- l))%Z then l else (l - 1)%Z.

(** The exponent of the unit in the last place of [n/d]: 52 below its
    leading bit, but never below [emin]. *)
Definition ulp_exp (n d : Z) : Z :=
  Z.max emin (floor_log2_frac n d - (prec - 1)).

(** The binary64 number nearest to the exact fraction [n/d] with sign [s]
    ([0 <= n], [0 < d]), ties to even; an infinity beyond the largest
    finite number. *)
Definition round_frac (s : bool) (n d : Z) : spec_float :=
  let e := ulp_exp n d in
  let m := div_rne (n * pow2 (- e)) (d * pow2 e) in
  let '(m, e) :=
    if (m =? 2 ^ prec)%Z then ((2 ^ (prec - 1))%Z, (e + 1)%Z) else (m, e) in
  match m with
  | Z0 => S754_zero s
  | Zpos p => if (e <=? emax - prec)%Z then S754_finite s p e else S754_infinity s
  | Zneg _ => S754_nan
  end.

(** [float(z)] for a Python [int]. *)
Definition float_of_int (z : Z) : res spec_float :=
  match round_frac (z <? 0)%Z (Z.abs z) 1 with
  | S754_infinity _ => Raise OverflowError
  | f => Ok f
  end.

(** [a / b] on two Python [int]s: the exact quotient, rounded once. *)
Definition truediv (a b : Z) : res spec_float :=
  if (b =? 0)%Z then Raise ZeroDivisionError
  else
    match round_frac (xorb (a <? 0)%Z (b <? 0)%Z) (Z.abs a) (Z.abs b) with
    | S754_infinity _ => Raise OverflowError
    | f => Ok f
    end.

(** [x * y] on two floats: the exact product, rounded once.  With a zero,
    an infinity or a NaN among the operands nothing is rounded. *)
Definition fmul (x y : spec_float) : spec_float :=
  match x, y with
  | S754_finite sx mx ex, S754_finite sy my ey =>
      let e := (ex + ey)%Z in
      round_frac (xorb sx sy) (Zpos (mx * my) * pow2 e) (pow2 (- e))
  | _, _ => SFmul prec emax x y
  end.

(** [round(x, 1)]: the exact value of [x] is rounded to a whole number of
    tenths, ties to even, and the float nearest to that decimal is
    returned.  Zeros, infinities and NaN round to themselves. *)
Definition round1 (x : spec_float) : spec_float :=
  match x with
  | S754_finite s m e =>
      round_frac s (div_rne (10 * Zpos m * pow2 e) (pow2 (- e))) 10
  | _ => x
  end.

(** The float literal [100.0]. *)
Definition f100 : spec_float := S754_finite false 7036874417766400 (-46).

(** The rational value of a finite float (0 for the others). *)
Definition value (x : spec_float) : Q :=
  match x with
  | S754_finite s m e =>
      Qmake ((if s then -1 else 1) * Zpos m * pow2 e) (Z.to_pos (pow2 (- e)))
  | _ => 0%Q
  end.

Definition is_finite (x : spec_float) : bool :=
  match x with
  | S754_finite _ _ _ | S754_zero _ => true
  | _ => false
  end.

End F64.

(** A Python number as [evaluate] returns it in ["score"]. *)
Inductive pynum :=
| PyInt (z : Z)
| PyFloat (f : SpecFloat.spec_float).

(** ** Table parser *)

(** [[c.strip() for c in line.split("|")[1:-1]]] *)
Definition row_cells (line : string) : list string :=
  map PyStr.strip (PyStr.slice_1_m1 (PyStr.split "|" line)).

(** The body of the loop of [parse_audit_output] on one line: the section
    dict it appends, or [None] where it reaches a [continue]. *)
Definition parse_line (line : string) : option (gmap string string) :=
  let line := PyStr.strip line in
  if negb (PyStr.startswith line "|") then None
  else
    let cells := row_cells line in
    if (List.length cells <? 3)%nat then None
    else
      let cell0 := nth 0 cells "" in
      if bool_decide (cell0 ∈ ["Section"; "---"; ""]) || PyStr.startswith cell0 "-"
      then None
      else if forallb (fun c => PyStr.startswith c "-" || bool_decide (c = "")) cells
      then None
      else
        Some {[ "name" := cell0;
                "verdict" := if (3 <=? List.length cells)%nat then nth 2 cells "" else "";
                "reason" := if (4 <=? List.length cells)%nat then nth 3 cells "" else "" ]}.

(** Parse a markdown table from audit output.  [sections] is the list the
    loop appends to. *)
Definition parse_audit_output (text : string) : list (gmap string string) :=
  fold_left
    (fun sections line =>
       match parse_line line with
       | Some section => (sections ++ [section])%list
       | None => sections
       end)
    (PyStr.split PyStr.LF text) [].

(** ** Evaluation *)

(** The answer key as [json.loads] delivers it: a case id and a sequence of
    sections, each with a name and a verdict. *)
Record answer_section := { s_name : string; s_verdict : string }.
Record answer_key := { ak_case_id : string; ak_sections : list answer_section }.

(** One entry of the report's ["sections"] list. *)
Record score_result := {
  sr_section : string;
  sr_expected : string;
  sr_actual : string;
  sr_verdict_score : Z;
  sr_reasoning_score : Z
}.

(** The dict that [evaluate] returns. *)
Record report := {
  rp_case_id : string;
  rp_score : pynum;
  rp_total_points : Z;
  rp_max_points : Z;
  rp_sections : list score_result
}.

(** [d[k] = v] on a dict in insertion order: a key that is present keeps its
    place and takes the new value, a new key goes to the end. *)
Fixpoint dict_set {V} (k : string) (v : V) (d : list (string * V)) : list (string * V) :=
  match d with
  | [] => [(k, v)]
  | (k', v') :: d' =>
      if bool_decide (k' = k) then (k', v) :: d' else (k', v') :: dict_set k v d'
  end.

(** [{s["name"]: s for s in sections}] *)
Definition expected_of (sections : list answer_section) : list (string * answer_section) :=
  fold_left (fun d s => dict_set (s_name s) s d) sections [].

(** The test of the fuzzy match, on the expected name and a row's name. *)
Definition fuzzy (exp_name a_name : string) : bool :=
  PyStr.contains (PyStr.lower exp_name) (PyStr.lower a_name)
  || PyStr.contains (PyStr.lower a_name) (PyStr.lower exp_name).

(** The inner loop: the first row of [actual] that matches, [None] when the
    loop ends without a [break]. *)
Fixpoint find_match (exp_name : string) (actual : list (gmap string string))
  : res (option (gmap string string)) :=
  match actual with
  | [] => Ok None
  | a :: rest =>
      a_name ← getitem a "name";
      if fuzzy exp_name a_name then Ok (Some a) else find_match exp_name rest
  end.

(** The body of the outer loop: the result appended for one expected
    section. *)
Definition score_section (case_id : string) (actual : list (gmap string string))
    (item : string * answer_section) : res score_result :=
  let '(exp_name, exp_data) := item in
  matched ← find_match exp_name actual;
  match matched with
  | None =>
      Ok {| sr_section := exp_name;
            sr_expected := s_verdict exp_data;
            sr_actual := "MISSING";
            sr_verdict_score := 0;
            sr_reasoning_score := 0 |}
  | Some matched =>
      m_verdict ← getitem matched "verdict";
      let v_score := score_verdict m_verdict (s_verdict exp_data) in
      let r_score :=
        score_reasoning (default "" (matched !! "reason")) case_id exp_name in
      Ok {| sr_section := exp_name;
            sr_expected := s_verdict exp_data;
            sr_actual := normalize_verdict m_verdict;
            sr_verdict_score := v_score;
            sr_reasoning_score := r_score |}
  end.

(** The outer loop over [expected.items()]; [results] is the list it
    appends to. *)
Fixpoint score_all (case_id : string) (actual : list (gmap string string))
    (items : list (string * answer_section)) (results : list score_result)
  : res (list score_result) :=
  match items with
  | [] => Ok results
  | item :: rest =>
      r ← score_section case_id actual item;
      score_all case_id actual rest (results ++ [r])%list
  end.

(** [sum(r["verdict_score"] + r["reasoning_score"] for r in results)] *)
Definition sum_scores (results : list score_result) : Z :=
  fold_left Z.add
    (map (fun r => (sr_verdict_score r + sr_reasoning_score r)%Z) results) 0%Z.

(** [round((total_score / total_possible) * 100, 1) if total_possible > 0
    else 0] *)
Definition normalized_score (total_score total_possible : Z) : res pynum :=
  if (0 <? total_possible)%Z
  then q ← F64.truediv total_score total_possible;
       Ok (PyFloat (F64.round1 (F64.fmul q F64.f100)))
  else Ok (PyInt 0).

(** Score an audit output against an answer key. *)
Definition evaluate (audit_output : string) (answer : answer_key) : res report :=
  let case_id := ak_case_id answer in
  let expected := expected_of (ak_sections answer) in
  let actual := parse_audit_output audit_output in
  let total_possible := (Z.of_nat (List.length expected) * 3)%Z in
  results ← score_all case_id actual expected [];
  let total_score := sum_scores results in
  normalized ← normalized_score total_score total_possible;
  Ok {| rp_case_id := case_id;
        rp_score := normalized;
        rp_total_points := total_score;
        rp_max_points := total_possible;
        rp_sections := results |}.

(** ** Notions used in the statements *)

(** A line feed, to write audit texts of several lines. *)
Definition NL : string := String PyStr.LF "".

(** The canonical verdict tokens: the keys of [VERDICT_GROUPS]. *)
Definition canonical_tokens : list string :=
  ["KEEP"; "REMOVE"; "TRIM"; "MOVE_NESTED"; "MOVE_HOOK"].

(** A string made of dashes only. *)
Fixpoint dash_only (s : string) : bool :=
  match s with
  | EmptyString => true
  | String c s' => Ascii.eqb c "-" && dash_only s'
  end.

(** The row of the worked example of the specification, alone and below a
    header and a separator row. *)
Definition testing_row : string :=
  "| Testing Strategy | ... | TRIM | discoverable via package.json |".

Definition testing_table : string :=
  "| Section | Lines | Verdict | Reason |" ++ NL ++
  "|---|---|---|---|" ++ NL ++
  testing_row ++ NL.

Definition testing_key : answer_key :=
  {| ak_case_id := "case-02-mixed-quality";
     ak_sections := [ {| s_name := "Testing"; s_verdict := "TRIM" |} ] |}.

(** A float that is a zero or finite, not negative, and at most [c]. *)
Definition nonneg_le (c : Z) (x : SpecFloat.spec_float) : Prop :=
  match x with
  | SpecFloat.S754_zero s => s = false
  | SpecFloat.S754_finite s m e =>
      s = false /\ (Zpos m * F64.pow2 e <= c * F64.pow2 (- e))%Z
  | _ => False
  end.

(** A score as the report may hold it: the integer 0, or the float nearest
    to [k/10] for a whole number [k] of tenths between 0 and 1000, whose
    value then lies between 0 and 100. *)
Definition score_in_range (s : pynum) : Prop :=
  match s with
  | PyInt z => z = 0%Z
  | PyFloat x =>
      (exists k : Z, (0 <= k <= 1000)%Z /\ x = F64.round_frac false k 10)
      /\ F64.is_finite x = true
      /\ (0 <= F64.value x)%Q /\ (F64.value x <= 100)%Q
  end.

#[global] Instance spec_float_eq_dec : EqDecision SpecFloat.spec_float.
Proof. solve_decision. Defined.

(** [int / int * 100] computed with the operations of the standard library's
    specification of binary64, for comparison. *)
Definition percent_SpecFloat (t p : Z) : SpecFloat.spec_float :=
  let of_int (z : Z) := SpecFloat.binary_normalize 53 1024 z 0 false in
  SpecFloat.SFmul 53 1024 (SpecFloat.SFdiv 53 1024 (of_int t) (of_int p)) (of_int 100%Z).

Definition percent (t p : Z) : res SpecFloat.spec_float :=
  q ← F64.truediv t p; Ok (F64.fmul q F64.f100).

(** The pairs [(t, p)] with [0 <= t <= p] and [1 <= p <= n]. *)
Definition score_pairs (n : nat) : list (Z * Z) :=
  p ← seq 1 n; t ← seq 0 (S p); [(Z.of_nat t, Z.of_nat p)].

(** A parsed row on which the lookups of [evaluate] succeed. *)
Definition row_ok (a : gmap string string) : Prop :=
  is_Some (a !! "name") /\ is_Some (a !! "verdict") /\ is_Some (a !! "reason").

(** An answer key with two sections of the same name. *)
Definition twice_A_key : answer_key :=
  {| ak_case_id := "case-01-bloated-generic";
     ak_sections := [ {| s_name := "A"; s_verdict := "KEEP" |};
                      {| s_name := "A"; s_verdict := "TRIM" |} ] |}.

(** An answer key whose two sections both match the row "Testing
    Strategy". *)
Definition two_names_key : answer_key :=
  {| ak_case_id := "case-02-mixed-quality";
     ak_sections := [ {| s_name := "Testing"; s_verdict := "TRIM" |};
                      {| s_name := "Strategy"; s_verdict := "KEEP" |} ] |}.

(** The section dict parsed from [testing_row]. *)
Definition testing_section : gmap string string :=
  {[ "name" := "Testing Strategy";
     "verdict" := "TRIM";
     "reason" := "discoverable via package.json" ]}.

(** The result recorded for an expected section without a matching row. *)
Definition missing_result (exp_name : string) (exp_data : answer_section) : score_result :=
  {| sr_section := exp_name;
     sr_expected := s_verdict exp_data;
     sr_actual := "MISSING";
     sr_verdict_score := 0;
     sr_reasoning_score := 0 |}.

(** The result recorded for an expected section scored against [row]. *)
Definition matched_result (case_id exp_name : string) (exp_data : answer_section)
    (v r : string) : score_result :=
  {| sr_section := exp_name;
     sr_expected := s_verdict exp_data;
     sr_actual := normalize_verdict v;
     sr_verdict_score := score_verdict v (s_verdict exp_data);
     sr_reasoning_score := score_reasoning r case_id exp_name |}.

(** ** The summary lines of [main] *)

(** A byte that continues a UTF-8 sequence. *)
Definition is_continuation (c : ascii) : bool :=
  let n := nat_of_ascii c in (128 <=? n)%nat && (n <=? 191)%nat.

(** [len(s)]: the number of code points, which is the number of bytes that
    do not continue a sequence. *)
Fixpoint str_len (s : string) : nat :=
  match s with
  | EmptyString => 0
  | String c s' => if is_continuation c then str_len s' else S (str_len s')
  end.

Fixpoint spaces (n : nat) : string :=
  match n with
  | O => EmptyString
  | S k => String " " (spaces k)
  end.

(** The format [{s:Ns}]: [s] on the left of a field of [width] characters,
    filled with spaces; a longer [s] is printed whole. *)
Definition ljust (width : nat) (s : string) : string :=
  s ++ spaces (width - str_len s).

(** ["exact" if s["verdict_score"] == 2 else "near" if ... == 1 else "MISS"] *)
Definition match_label (verdict_score : Z) : string :=
  if (verdict_score =? 2)%Z then "exact"
  else if (verdict_score =? 1)%Z then "near"
  else "MISS".

(** ["+reason" if s["reasoning_score"] else ""] *)
Definition bonus_label (reasoning_score : Z) : string :=
  if (reasoning_score =? 0)%Z then "" else "+reason".

(** The line that [main] prints for one entry of the report's sections. *)
Definition summary_line (s : score_result) : string :=
  "  " ++ ljust 30 (sr_section s) ++ " " ++ ljust 15 (sr_expected s)
  ++ " -> " ++ ljust 15 (sr_actual s)
  ++ " [" ++ match_label (sr_verdict_score s)
  ++ bonus_label (sr_reasoning_score s) ++ "]".

(** ** Further notions used in the statements *)

(** The string that [normalize_verdict] looks up in its alias table. *)
Definition cleaned (raw : string) : string :=
  PyStr.replace "->" ""
    (PyStr.replace "→" ""
       (PyStr.replace " " "_" (PyStr.strip (PyStr.upper raw)))).

(** The characters of a string. *)
Fixpoint chars (s : string) : list ascii :=
  match s with
  | EmptyString => []
  | String c s' => c :: chars s'
  end.

(** The number of occurrences of a character. *)
Fixpoint count_char (c : ascii) (s : string) : nat :=
  match s with
  | EmptyString => 0
  | String c' s' => if Ascii.eqb c' c then S (count_char c s') else count_char c s'
  end.

(** A string that does not begin with whitespace. *)
Definition no_leading_space (s : string) : Prop :=
  match s with
  | EmptyString => True
  | String c _ => PyStr.is_space c = false
  end.

(** [s.isascii()]: every byte is below 128, that is, the string is made of
    ASCII characters only. *)
Fixpoint isascii (s : string) : bool :=
  match s with
  | EmptyString => true
  | String c s' => (nat_of_ascii c <? 128)%nat && isascii s'
  end.

(** An answer key whose first section has no row in [testing_table] and
    whose second section has one. *)
Definition hooks_testing_key : answer_key :=
  {| ak_case_id := "case-02-mixed-quality";
     ak_sections := [ {| s_name := "Hooks"; s_verdict := "MOVE_HOOK" |};
                      {| s_name := "Testing"; s_verdict := "TRIM" |} ] |}.

(** The points of one result. *)
Definition points (r : score_result) : Z :=
  (sr_verdict_score r + sr_reasoning_score r)%Z.

(** The value of a non-negative float in units of 2^-1074, the smallest
    positive binary64 number. *)
Definition scaled (x : SpecFloat.spec_float) : Z :=
  match x with
  | SpecFloat.S754_finite false m e => (Zpos m * 2 ^ (e + 1074))%Z
  | _ => 0%Z
  end.

(** A float that is zero or positive, with an exponent between -1074 and 0:
    the floats that the score computation goes through. *)
Definition small_nonneg (x : SpecFloat.spec_float) : Prop :=
  match x with
  | SpecFloat.S754_zero s => s = false
  | SpecFloat.S754_finite s m e => s = false /\ (-1074 <= e <= 0)%Z
  | _ => False
  end.

(** * Properties *)

(** ** Verdicts *)

Lemma canonical_tokens_are_the_groups :
  dom VERDICT_GROUPS = list_to_set canonical_tokens.
Proof.
  unfold VERDICT_GROUPS, canonical_tokens.
  rewrite dom_list_to_map_L. reflexivity.
Qed.

(** C8: [normalize_verdict] returns each canonical verdict token (KEEP,
    REMOVE, TRIM, MOVE_NESTED, MOVE_HOOK) unchanged, hence normalizing twice
    is the same as normalizing once on them. *)
Theorem normalize_verdict_canonical :
  Forall
    (fun t => normalize_verdict t = t
              /\ normalize_verdict (normalize_verdict t) = normalize_verdict t)
    canonical_tokens.
Proof.
  unfold canonical_tokens.
  repeat constructor; vm_compute; reflexivity.
Qed.

(** [score_verdict] compares the two lookups in [VERDICT_GROUPS] as they
    are: two absent keys both give [None], and [None == None] holds. *)
Lemma score_verdict_unmapped (actual expected : string) :
  normalize_verdict actual <> normalize_verdict expected ->
  VERDICT_GROUPS !! normalize_verdict actual = None ->
  VERDICT_GROUPS !! normalize_verdict expected = None ->
  score_verdict actual expected = 1%Z.
Proof.
  intros Hne Ha He. unfold score_verdict.
  rewrite bool_decide_eq_false_2 by exact Hne.
  rewrite Ha, He. reflexivity.
Qed.

(** C1: on the verdicts "FOO" and "BAR", whose normalized forms differ and
    are both absent from [VERDICT_GROUPS], [score_verdict] returns 1 where
    the claim promises 0. *)
Theorem score_verdict_FOO_BAR :
  normalize_verdict "FOO" = "FOO"
  /\ normalize_verdict "BAR" = "BAR"
  /\ VERDICT_GROUPS !! "FOO" = None
  /\ VERDICT_GROUPS !! "BAR" = None
  /\ score_verdict "FOO" "BAR" = 1%Z.
Proof. repeat split; vm_compute; reflexivity. Qed.

(** ** Table parser *)

Lemma parse_loop_omap (lines : list string) (acc : list (gmap string string)) :
  fold_left
    (fun sections line =>
       match parse_line line with
       | Some section => (sections ++ [section])%list
       | None => sections
       end) lines acc
  = (acc ++ omap parse_line lines)%list.
Proof.
  revert acc. induction lines as [|l ls IH]; intros acc; simpl.
  - by rewrite app_nil_r.
  - rewrite IH. destruct (parse_line l); simpl; [|done].
    by rewrite <- app_assoc.
Qed.

(** The parser keeps, in order, the sections of the lines that yield one. *)
Lemma parse_audit_output_lines (text : string) :
  parse_audit_output text = omap parse_line (PyStr.split PyStr.LF text).
Proof. unfold parse_audit_output. by rewrite parse_loop_omap. Qed.

(** What a line has to be like for the loop to append a section, and the
    section appended. *)
Lemma parse_line_Some (line : string) (s : gmap string string) :
  parse_line line = Some s ->
  let cells := row_cells (PyStr.strip line) in
  let cell0 := nth 0 cells "" in
  PyStr.startswith (PyStr.strip line) "|" = true
  /\ (3 <= List.length cells)%nat
  /\ cell0 <> "Section" /\ cell0 <> "" /\ PyStr.startswith cell0 "-" = false
  /\ s = {[ "name" := cell0;
            "verdict" := nth 2 cells "";
            "reason" := if (4 <=? List.length cells)%nat then nth 3 cells "" else "" ]}.
Proof.
  unfold parse_line. cbv zeta.
  destruct (PyStr.startswith (PyStr.strip line) "|") eqn:Hpipe; cbn [negb]; [|done].
  destruct (List.length (row_cells (PyStr.strip line)) <? 3)%nat eqn:Hlen; [done|].
  apply Nat.ltb_ge in Hlen.
  destruct (bool_decide (nth 0 (row_cells (PyStr.strip line)) "" ∈ ["Section"; "---"; ""]))
    eqn:Hin; cbn [orb]; [done|].
  apply bool_decide_eq_false in Hin.
  destruct (PyStr.startswith (nth 0 (row_cells (PyStr.strip line)) "") "-") eqn:Hdash;
    [done|].
  destruct (forallb _ _); [done|].
  rewrite (proj2 (Nat.leb_le 3 _) Hlen).
  intros Hs. apply (inj Some) in Hs. subst s.
  repeat split; try assumption.
  - intros Heq. apply Hin. rewrite Heq. set_solver.
  - intros Heq. apply Hin. rewrite Heq. set_solver.
Qed.

(** C2 (as the code has it): a pipe-delimited row with at least 3 cells is
    skipped exactly when its first cell is literally "Section", is empty, or
    starts with a dash; every other such row is kept: the section made of
    its cells 0, 2 and 3 is among the parsed sections. *)
Theorem row_skipped_iff (text line : string) :
  let row := PyStr.strip line in
  let cells := row_cells row in
  let cell0 := nth 0 cells "" in
  let section : gmap string string :=
    {[ "name" := cell0;
       "verdict" := nth 2 cells "";
       "reason" := if (4 <=? List.length cells)%nat then nth 3 cells "" else "" ]} in
  line ∈ PyStr.split PyStr.LF text ->
  PyStr.startswith row "|" = true ->
  (3 <= List.length cells)%nat ->
  (parse_line line = None
   <-> cell0 = "Section" \/ cell0 = "" \/ PyStr.startswith cell0 "-" = true)
  /\ (parse_line line <> None ->
      parse_line line = Some section /\ section ∈ parse_audit_output text).
Proof.
  intros row cells cell0 section Hline Hpipe Hlen. split.
  - unfold parse_line. cbv zeta. fold row. rewrite Hpipe. cbn [negb].
    fold cells. replace (List.length cells <? 3)%nat with false
      by (symmetry; by apply Nat.ltb_ge).
    fold cell0. split.
    + destruct (bool_decide (cell0 ∈ ["Section"; "---"; ""])) eqn:Hin; cbn [orb].
      * intros _. apply bool_decide_eq_true in Hin.
        apply elem_of_cons in Hin as [->|Hin]; [by left|].
        apply elem_of_cons in Hin as [->|Hin]; [by right; right|].
        apply elem_of_cons in Hin as [->|Hin]; [by right; left|].
        by apply elem_of_nil in Hin.
      * destruct (PyStr.startswith cell0 "-") eqn:Hdash; [by intros _; right; right|].
        destruct (forallb _ cells) eqn:Hall; [|done].
        intros _. exfalso.
        destruct cells as [|c0 rest] eqn:Hcells; [simpl in Hlen; lia|].
        simpl in Hall. apply andb_true_iff in Hall as [Hc0 _].
        apply orb_true_iff in Hc0 as [Hc0|Hc0].
        -- subst cell0. simpl in Hdash. congruence.
        -- apply bool_decide_eq_true in Hc0. apply bool_decide_eq_false in Hin.
           apply Hin. subst cell0. simpl. rewrite Hc0. set_solver.
    + intros [Heq|[Heq|Heq]].
      * rewrite Heq. reflexivity.
      * rewrite Heq. reflexivity.
      * rewrite Heq. by rewrite orb_true_r.
  - intros Hkept. destruct (parse_line line) as [s|] eqn:Hs; [|done].
    pose proof Hs as Hs'.
    apply parse_line_Some in Hs' as (_ & _ & _ & _ & _ & Heq).
    fold row cells cell0 section in Heq. subst s. split; [done|].
    rewrite parse_audit_output_lines. apply list_elem_of_omap. eauto.
Qed.

(** A row that the parser keeps. *)
Lemma row_skipped_iff_witness :
  testing_row ∈ PyStr.split PyStr.LF testing_table
  /\ PyStr.startswith (PyStr.strip testing_row) "|" = true
  /\ (3 <= List.length (row_cells (PyStr.strip testing_row)))%nat
  /\ parse_line testing_row = Some testing_section
  /\ testing_section ∈ parse_audit_output testing_table.
Proof.
  assert (testing_row ∈ PyStr.split PyStr.LF testing_table) as Hline.
  { replace (PyStr.split PyStr.LF testing_table)
      with ["| Section | Lines | Verdict | Reason |"; "|---|---|---|---|";
            testing_row; ""]
      by (vm_compute; reflexivity).
    apply elem_of_cons. right. apply elem_of_cons. right.
    apply list_elem_of_here. }
  assert (PyStr.startswith (PyStr.strip testing_row) "|" = true) as Hpipe
    by (vm_compute; reflexivity).
  assert (3 <= List.length (row_cells (PyStr.strip testing_row)))%nat as Hlen
    by (vm_compute; lia).
  destruct (row_skipped_iff testing_table testing_row Hline Hpipe Hlen)
    as [Hiff Hkept].
  split; [exact Hline|]. split; [exact Hpipe|]. split; [exact Hlen|].
  assert (parse_line testing_row <> None) as Hsome.
  { intros Hnone. apply Hiff in Hnone.
    destruct Hnone as [H|[H|H]]; vm_compute in H; discriminate. }
  destruct (Hkept Hsome) as [Hs Hin].
  replace testing_section
    with ({[ "name" := nth 0 (row_cells (PyStr.strip testing_row)) "";
             "verdict" := nth 2 (row_cells (PyStr.strip testing_row)) "";
             "reason" := if (4 <=? List.length (row_cells (PyStr.strip testing_row)))%nat
                         then nth 3 (row_cells (PyStr.strip testing_row)) "" else "" ]}
          : gmap string string)
    by (vm_compute; reflexivity).
  split; [exact Hs|exact Hin].
Defined.

(** C2 (as stated) fails: the row [| -x | 1 | KEEP | data |] has four cells,
    its first cell is neither "Section" nor dash-only, its other cells hold
    data, and yet the row is skipped. *)
Lemma dash_prefixed_row_is_skipped :
  let line := "| -x | 1 | KEEP | data |" in
  let cells := row_cells (PyStr.strip line) in
  cells = ["-x"; "1"; "KEEP"; "data"]
  /\ nth 0 cells "" <> "Section"
  /\ dash_only (nth 0 cells "") = false
  /\ parse_line line = None
  /\ parse_audit_output line = [].
Proof. repeat split; try (vm_compute; reflexivity). vm_compute. discriminate. Qed.


(** ** Binary64 arithmetic *)

(** On every quotient of a total by a maximum of up to 60 points (20
    sections), the division and the multiplication by 100 agree with the
    operations [SFdiv] and [SFmul] of the standard library at precision 53. *)
Lemma percent_agrees_with_SpecFloat :
  forallb
    (fun '(t, p) =>
       match percent t p with
       | Ok x => bool_decide (x = percent_SpecFloat t p)
       | Raise _ => false
       end)
    (score_pairs 60) = true.
Proof. vm_compute. reflexivity. Qed.

Lemma f100_is_float_100 : F64.float_of_int 100 = Ok F64.f100.
Proof. vm_compute. reflexivity. Qed.

(** Operands beyond the scores of [evaluate], with the results of CPython:
    two long integers, the least subnormal, a tie at half of it, the
    overflow threshold, a negative quotient and the negative zero. *)
Lemma truediv_examples :
  F64.truediv (2 ^ 80 + 1) (2 ^ 20 + 7)
  = Ok (SpecFloat.S754_finite false 9007139125600253 7)
  /\ F64.truediv 1 (2 ^ 1074) = Ok (SpecFloat.S754_finite false 1 (-1074))
  /\ F64.truediv 1 (2 ^ 1075) = Ok (SpecFloat.S754_zero false)
  /\ F64.truediv 3 (2 ^ 1075) = Ok (SpecFloat.S754_finite false 2 (-1074))
  /\ F64.truediv (2 ^ 1024 - 2 ^ 970) 1 = Raise OverflowError
  /\ F64.truediv (2 ^ 1024 - 2 ^ 970 - 1) 1
     = Ok (SpecFloat.S754_finite false 9007199254740991 971)
  /\ F64.truediv (-7) 3 = Ok (SpecFloat.S754_finite true 5254199565265579 (-51))
  /\ F64.truediv 0 (-3) = Ok (SpecFloat.S754_zero true).
Proof. repeat split; vm_compute; reflexivity. Qed.

Lemma truediv_by_zero (a : Z) : F64.truediv a 0 = Raise ZeroDivisionError.
Proof. reflexivity. Qed.

Section F64_bounds.
Import SpecFloat.
Local Open Scope Z_scope.

Lemma pow2_pos k : 0 < F64.pow2 k.
Proof. unfold F64.pow2. apply Z.pow_pos_nonneg; lia. Qed.

Lemma pow2_nonpos k : k <= 0 -> F64.pow2 k = 1.
Proof. intros Hk. unfold F64.pow2. by rewrite Z.max_l by lia. Qed.

Lemma pow2_nonneg k : 0 <= k -> F64.pow2 k = 2 ^ k.
Proof. intros Hk. unfold F64.pow2. by rewrite Z.max_r by lia. Qed.

Lemma div_rne_nonneg n d : 0 <= n -> 0 < d -> 0 <= F64.div_rne n d.
Proof.
  intros Hn Hd. unfold F64.div_rne.
  assert (0 <= n / d) by (apply Z.div_pos; lia).
  destruct (2 * (n mod d) ?= d); [destruct (Z.even _)|..]; lia.
Qed.

(** Rounding to nearest never passes an integer that bounds the fraction. *)
Lemma div_rne_le n d K : 0 < d -> n <= K * d -> F64.div_rne n d <= K.
Proof.
  intros Hd Hn. unfold F64.div_rne.
  pose proof (Z.div_mod n d ltac:(lia)) as Hdiv.
  pose proof (Z.mod_pos_bound n d Hd) as Hmod.
  assert (n / d <= K) as Hq by (apply Z.div_le_upper_bound; lia).
  destruct (Z.compare_spec (2 * (n mod d)) d); [destruct (Z.even _)|..]; nia.
Qed.

Lemma ulp_exp_nonpos n d :
  0 <= n -> 0 < d -> n <= 2 ^ 52 * d -> F64.ulp_exp n d <= 0.
Proof.
  intros Hn Hd Hle. unfold F64.ulp_exp, F64.floor_log2_frac, F64.prec, F64.emin.
  assert (Z.log2 n <= 52 + Z.log2 d).
  { transitivity (Z.log2 (d * 2 ^ 52)).
    - apply Z.log2_le_mono. lia.
    - rewrite Z.log2_mul_pow2; lia. }
  destruct (_ <=? _); lia.
Qed.

(** The rounding of a fraction that lies between 0 and an integer [c] of at
    most 52 bits lies between 0 and [c]. *)
Lemma round_frac_le c n d :
  0 <= n -> 0 < d -> 0 <= c <= 2 ^ 52 -> n <= c * d ->
  nonneg_le c (F64.round_frac false n d).
Proof.
  intros Hn Hd Hc Hle. unfold F64.round_frac.
  pose proof (ulp_exp_nonpos n d Hn Hd ltac:(nia)) as He.
  set (e := F64.ulp_exp n d) in *.
  rewrite (pow2_nonpos e He), Z.mul_1_r.
  pose proof (pow2_pos (- e)) as Hp.
  assert (0 <= F64.div_rne (n * F64.pow2 (- e)) d) as Hm0
    by (apply div_rne_nonneg; nia).
  assert (F64.div_rne (n * F64.pow2 (- e)) d <= c * F64.pow2 (- e)) as Hm
    by (apply div_rne_le; nia).
  set (m := F64.div_rne (n * F64.pow2 (- e)) d) in *.
  destruct (m =? 2 ^ F64.prec) eqn:Hcarry.
  - apply Z.eqb_eq in Hcarry. change (2 ^ F64.prec) with (2 ^ 53) in Hcarry.
    assert (e <= -1) as He1.
    { destruct (decide (e = 0)) as [->|]; [|lia].
      change (F64.pow2 (- 0)) with 1 in Hm. lia. }
    change (2 ^ (F64.prec - 1)) with (Zpos 4503599627370496).
    cbv iota beta.
    replace (e + 1 <=? F64.emax - F64.prec) with true
      by (symmetry; apply Z.leb_le; unfold F64.emax, F64.prec; lia).
    split; [done|].
    rewrite (pow2_nonpos (e + 1)) by lia.
    rewrite pow2_nonneg in Hm |- * by lia.
    replace (- e) with (1 + - (e + 1)) in Hm by lia.
    rewrite Z.pow_add_r in Hm by lia. lia.
  - destruct m as [|pm|pm] eqn:Hmeq; [done| |lia].
    replace (e <=? F64.emax - F64.prec) with true
      by (symmetry; apply Z.leb_le; unfold F64.emax, F64.prec; lia).
    split; [done|]. rewrite (pow2_nonpos e He). lia.
Qed.

Lemma nonneg_le_finite c x : nonneg_le c x -> F64.is_finite x = true.
Proof. by destruct x. Qed.

Lemma nonneg_le_value c x :
  0 <= c -> nonneg_le c x ->
  (0 <= F64.value x)%Q /\ (F64.value x <= inject_Z c)%Q.
Proof.
  intros Hc Hx. destruct x as [s| | |s m e]; try done.
  - split; unfold Qle; simpl; lia.
  - destruct Hx as [-> Hx]. pose proof (pow2_pos e). pose proof (pow2_pos (- e)).
    unfold F64.value, Qle. cbn [Qnum Qden inject_Z].
    rewrite Z2Pos.id by done. split; nia.
Qed.

(** [t / p] for [0 <= t <= p], [0 < p]: no exception, and a float between
    0 and 1. *)
Lemma truediv_le_1 t p :
  0 <= t <= p -> 0 < p ->
  exists q, F64.truediv t p = Ok q /\ nonneg_le 1 q.
Proof.
  intros Ht Hp. unfold F64.truediv.
  replace (p =? 0) with false by (symmetry; apply Z.eqb_neq; lia).
  replace (t <? 0) with false by (symmetry; apply Z.ltb_ge; lia).
  replace (p <? 0) with false by (symmetry; apply Z.ltb_ge; lia).
  rewrite !Z.abs_eq by lia. cbn [xorb].
  pose proof (round_frac_le 1 t p ltac:(lia) Hp ltac:(lia) ltac:(lia)) as Hq.
  destruct (F64.round_frac false t p) as [s| | |s m e] eqn:Hr; try done; eauto.
Qed.

(** A float between 0 and 1, times 100.0, is a float between 0 and 100. *)
Lemma fmul_100_le q : nonneg_le 1 q -> nonneg_le 100 (F64.fmul q F64.f100).
Proof.
  destruct q as [s| | |s m e]; try done.
  - unfold nonneg_le at 1. intros Hs. subst s. reflexivity.
  - intros [-> Hq]. unfold F64.fmul, F64.f100. cbn [xorb].
    pose proof (pow2_pos (e + -46)). pose proof (pow2_pos (- (e + -46))).
    apply round_frac_le; [nia|lia|lia|].
    rewrite Pos2Z.inj_mul.
    destruct (decide (0 <= e)) as [He|He].
    + rewrite (pow2_nonpos (- e)) in Hq by lia. rewrite pow2_nonneg in Hq by lia.
      assert (1 <= 2 ^ e) by (apply Z.lt_pred_le, Z.pow_pos_nonneg; lia).
      assert (Zpos m = 1) as Hm by nia. rewrite Hm in Hq |- *.
      assert (e = 0) as ->.
      { destruct (decide (e = 0)); [done|].
        pose proof (Z.pow_gt_1 2 e ltac:(lia)) as [Hgt _]. lia. }
      vm_compute. discriminate.
    + rewrite (pow2_nonpos e) in Hq by lia.
      rewrite (pow2_nonpos (e + -46)) by lia.
      rewrite pow2_nonneg in Hq |- * by lia.
      replace (- (e + -46)) with (46 + - e) by lia.
      rewrite Z.pow_add_r by lia.
      change (2 ^ 46) with 70368744177664.
      pose proof (Z.pow_pos_nonneg 2 (- e) ltac:(lia) ltac:(lia)). nia.
Qed.

(** [round(x, 1)] of a float between 0 and 100 is the float nearest to a
    whole number of tenths between 0 and 1000, and lies between 0 and
    100. *)
Lemma round1_le x :
  nonneg_le 100 x ->
  (exists k, 0 <= k <= 1000 /\ F64.round1 x = F64.round_frac false k 10)
  /\ nonneg_le 100 (F64.round1 x).
Proof.
  destruct x as [s| | |s m e]; try done.
  - unfold nonneg_le at 1. intros Hs. subst s.
    split; [|done]. exists 0. split; [lia|]. reflexivity.
  - intros [-> Hx]. unfold F64.round1.
    pose proof (pow2_pos e). pose proof (pow2_pos (- e)).
    set (k := F64.div_rne (10 * Z.pos m * F64.pow2 e) (F64.pow2 (- e))).
    assert (0 <= k) by (apply div_rne_nonneg; nia).
    assert (k <= 1000) by (apply div_rne_le; nia).
    split; [exists k; split; [lia|done]|].
    apply round_frac_le; lia.
Qed.

(** The score of a total that does not exceed the maximum. *)
Lemma normalized_score_in_range t p :
  0 <= t <= p ->
  exists s, normalized_score t p = Ok s /\ score_in_range s.
Proof.
  intros Htp. unfold normalized_score.
  destruct (0 <? p) eqn:Hp.
  - apply Z.ltb_lt in Hp.
    destruct (truediv_le_1 t p Htp Hp) as (q & -> & Hq).
    eexists. split; [reflexivity|].
    apply fmul_100_le, round1_le in Hq as [Hk Hr].
    pose proof (nonneg_le_value 100 _ ltac:(lia) Hr) as [Hv0 Hv].
    repeat split; try done. by eapply nonneg_le_finite.
  - eexists. split; [reflexivity|]. reflexivity.
Qed.

End F64_bounds.

(** ** Parsed sections *)

Lemma section_dict_lookups (n v r : string) :
  let s : gmap string string := {[ "name" := n; "verdict" := v; "reason" := r ]} in
  s !! "name" = Some n /\ s !! "verdict" = Some v /\ s !! "reason" = Some r
  /\ dom s = {[ "name"; "verdict"; "reason" ]}.
Proof.
  cbv zeta. split; [|split; [|split]].
  - by rewrite lookup_insert_eq.
  - rewrite lookup_insert_ne by done. by rewrite lookup_insert_eq.
  - rewrite !lookup_insert_ne by done. by rewrite lookup_singleton_eq.
  - rewrite !dom_insert_L, dom_singleton_L. set_solver.
Qed.

Lemma parse_line_row_ok (line : string) (s : gmap string string) :
  parse_line line = Some s -> row_ok s.
Proof.
  intros Hs. apply parse_line_Some in Hs as (_ & _ & _ & _ & _ & ->).
  destruct (section_dict_lookups
              (nth 0 (row_cells (PyStr.strip line)) "")
              (nth 2 (row_cells (PyStr.strip line)) "")
              (if (4 <=? List.length (row_cells (PyStr.strip line)))%nat
               then nth 3 (row_cells (PyStr.strip line)) "" else ""))
    as (Hn & Hv & Hr & _).
  repeat split; eauto.
Qed.

Lemma parse_rows_ok (text : string) : Forall row_ok (parse_audit_output text).
Proof.
  rewrite parse_audit_output_lines. apply Forall_forall.
  intros s Hs. apply list_elem_of_omap in Hs as (line & _ & Hline).
  by eapply parse_line_row_ok.
Qed.

(** C9: every section dict produced by [parse_audit_output] comes from a
    line of the text, carries exactly the keys name, verdict and reason, has
    the line's first cell as its name, which is not empty, and has the empty
    string as its reason when the row has exactly 3 cells. *)
Theorem parsed_sections_shape (text : string) (s : gmap string string) :
  s ∈ parse_audit_output text ->
  exists line,
    line ∈ PyStr.split PyStr.LF text
    /\ parse_line line = Some s
    /\ dom s = {[ "name"; "verdict"; "reason" ]}
    /\ (exists n, s !! "name" = Some n /\ n <> ""
                  /\ n = nth 0 (row_cells (PyStr.strip line)) "")
    /\ (List.length (row_cells (PyStr.strip line)) = 3%nat ->
        s !! "reason" = Some "").
Proof.
  rewrite parse_audit_output_lines. intros Hs.
  apply list_elem_of_omap in Hs as (line & Hline & Hs).
  exists line. split; [done|]. split; [done|].
  apply parse_line_Some in Hs as (_ & _ & _ & Hne & _ & ->).
  match goal with
  | |- context [ {[ "name" := ?n; "verdict" := ?v; "reason" := ?r ]} ] =>
      destruct (section_dict_lookups n v r) as (Hn & _ & Hr & Hdom)
  end.
  split; [exact Hdom|]. split.
  - eexists. split; [exact Hn|]. by split.
  - intros Hlen. rewrite Hr, Hlen. reflexivity.
Qed.

(** The section parsed from a row of exactly three cells. *)
Lemma parsed_sections_shape_witness :
  let s : gmap string string :=
    {[ "name" := "Code Style"; "verdict" := "REMOVE"; "reason" := "" ]} in
  s ∈ parse_audit_output "| Code Style | 1-9 | REMOVE |"
  /\ s !! "name" = Some "Code Style"
  /\ s !! "reason" = Some "".
Proof.
  cbv zeta.
  assert ({[ "name" := "Code Style"; "verdict" := "REMOVE"; "reason" := "" ]}
          ∈ parse_audit_output "| Code Style | 1-9 | REMOVE |") as Hin.
  { replace (parse_audit_output "| Code Style | 1-9 | REMOVE |")
      with [ ({[ "name" := "Code Style"; "verdict" := "REMOVE"; "reason" := "" ]}
              : gmap string string) ]
      by (vm_compute; reflexivity).
    apply list_elem_of_here. }
  split; [exact Hin|].
  destruct (parsed_sections_shape _ _ Hin)
    as (line & Hline & Hs & _ & (n & Hn & _ & Hn0) & Hreason).
  apply list_elem_of_singleton in Hline. subst line.
  split.
  - rewrite Hn, Hn0. vm_compute. reflexivity.
  - apply Hreason. vm_compute. reflexivity.
Defined.

(** ** The scoring pass *)

Lemma score_verdict_range (actual expected : string) :
  (0 <= score_verdict actual expected <= 2)%Z.
Proof. unfold score_verdict. repeat case_bool_decide; lia. Qed.

Lemma score_reasoning_range (reason case_id section_name : string) :
  (0 <= score_reasoning reason case_id section_name <= 1)%Z.
Proof.
  unfold score_reasoning.
  destruct (default [] _); [lia|]. destruct (existsb _ _); lia.
Qed.

(** On parsed rows the inner loop raises nothing; what it returns is one of
    the rows. *)
Lemma find_match_total (exp_name : string) (actual : list (gmap string string)) :
  Forall row_ok actual ->
  exists m, find_match exp_name actual = Ok m
            /\ (forall a, m = Some a -> a ∈ actual).
Proof.
  induction 1 as [|a rest [[n Hn] _] _ IH]; simpl.
  - exists None. by split.
  - unfold getitem. rewrite Hn. simpl.
    destruct (fuzzy exp_name n).
    + exists (Some a). split; [done|]. intros ? [= <-]. apply list_elem_of_here.
    + destruct IH as (m & -> & Hm). exists m. split; [done|].
      intros a' Ha'. apply elem_of_cons. right. by apply Hm.
Qed.

(** Without a row whose name matches, the inner loop ends with [None]. *)
Lemma find_match_None (exp_name : string) (actual : list (gmap string string)) :
  Forall row_ok actual ->
  (forall a n, a ∈ actual -> a !! "name" = Some n -> fuzzy exp_name n = false) ->
  find_match exp_name actual = Ok None.
Proof.
  induction 1 as [|a rest [[n Hn] _] _ IH]; simpl; intros Hno; [done|].
  unfold getitem. rewrite Hn. simpl.
  rewrite (Hno a n) by (done || apply list_elem_of_here).
  apply IH. intros a' n' Ha'. apply Hno. apply elem_of_cons. by right.
Qed.

(** The result for a row that has been matched. *)
Lemma score_section_matched (case_id : string) (actual : list (gmap string string))
    (exp_name : string) (exp_data : answer_section) (row : gmap string string)
    (v : string) :
  find_match exp_name actual = Ok (Some row) ->
  row !! "verdict" = Some v ->
  score_section case_id actual (exp_name, exp_data)
  = Ok {| sr_section := exp_name;
          sr_expected := s_verdict exp_data;
          sr_actual := normalize_verdict v;
          sr_verdict_score := score_verdict v (s_verdict exp_data);
          sr_reasoning_score :=
            score_reasoning (default "" (row !! "reason")) case_id exp_name |}.
Proof.
  intros Hm Hv. unfold score_section. rewrite Hm. simpl.
  unfold getitem. rewrite Hv. reflexivity.
Qed.

(** On parsed rows the body of the outer loop raises nothing, and the points
    it awards are within the rubric. *)
Lemma score_section_total (case_id : string) (actual : list (gmap string string))
    (item : string * answer_section) :
  Forall row_ok actual ->
  exists r, score_section case_id actual item = Ok r
            /\ sr_section r = item.1
            /\ (0 <= sr_verdict_score r <= 2)%Z
            /\ (0 <= sr_reasoning_score r <= 1)%Z.
Proof.
  intros Hok. destruct item as [exp_name exp_data].
  destruct (find_match_total exp_name actual Hok) as ([row|] & Hm & Hin).
  - assert (row_ok row) as (_ & [v Hv] & _).
    { eapply Forall_forall; [exact Hok|]. by apply Hin. }
    rewrite (score_section_matched _ _ _ _ _ _ Hm Hv).
    eexists. split; [reflexivity|]. simpl.
    split; [done|]. split; [apply score_verdict_range|apply score_reasoning_range].
  - unfold score_section. rewrite Hm. simpl.
    eexists. split; [reflexivity|]. simpl. split; [done|]. lia.
Qed.

(** The outer loop appends one result per expected section, in order. *)
Lemma score_all_spec (case_id : string) (actual : list (gmap string string))
    (items : list (string * answer_section)) (acc : list score_result) :
  Forall row_ok actual ->
  exists rs,
    score_all case_id actual items acc = Ok (acc ++ rs)%list
    /\ Forall2 (fun item r => score_section case_id actual item = Ok r) items rs.
Proof.
  intros Hok. revert acc.
  induction items as [|item rest IH]; intros acc; simpl.
  - exists []. rewrite app_nil_r. by split.
  - destruct (score_section_total case_id actual item Hok) as (r & Hr & _).
    rewrite Hr. simpl. destruct (IH (acc ++ [r])%list) as (rs & -> & Hrs).
    exists (r :: rs). rewrite <- app_assoc. split; [done|]. by constructor.
Qed.

Lemma fold_add_acc (l : list Z) (a : Z) :
  fold_left Z.add l a = (a + fold_left Z.add l 0)%Z.
Proof.
  revert a. induction l as [|x l IH]; intros a; simpl; [lia|].
  rewrite (IH (a + x)%Z), (IH (0 + x)%Z). lia.
Qed.

Lemma sum_scores_cons (r : score_result) (rs : list score_result) :
  sum_scores (r :: rs)
  = (sr_verdict_score r + sr_reasoning_score r + sum_scores rs)%Z.
Proof. unfold sum_scores. simpl. by rewrite fold_add_acc. Qed.

(** The total never exceeds three points per result. *)
Lemma sum_scores_range (rs : list score_result) :
  Forall (fun r => (0 <= sr_verdict_score r <= 2)%Z
                   /\ (0 <= sr_reasoning_score r <= 1)%Z) rs ->
  (0 <= sum_scores rs <= Z.of_nat (List.length rs) * 3)%Z.
Proof.
  induction 1 as [|r rs [Hv Hr] _ IH]; [done|].
  rewrite sum_scores_cons. simpl List.length. lia.
Qed.

(** [evaluate] always returns a report; its fields are those computed by
    the loop body on each entry of the expected dict. *)
Lemma evaluate_spec (audit_output : string) (answer : answer_key) :
  let expected := expected_of (ak_sections answer) in
  let actual := parse_audit_output audit_output in
  exists results score,
    Forall2 (fun item r => score_section (ak_case_id answer) actual item = Ok r)
      expected results
    /\ (0 <= sum_scores results <= Z.of_nat (List.length expected) * 3)%Z
    /\ normalized_score (sum_scores results) (Z.of_nat (List.length expected) * 3)
       = Ok score
    /\ score_in_range score
    /\ evaluate audit_output answer
       = Ok {| rp_case_id := ak_case_id answer;
               rp_score := score;
               rp_total_points := sum_scores results;
               rp_max_points := (Z.of_nat (List.length expected) * 3)%Z;
               rp_sections := results |}.
Proof.
  intros expected actual.
  pose proof (parse_rows_ok audit_output) as Hok. fold actual in Hok.
  destruct (score_all_spec (ak_case_id answer) actual expected [] Hok)
    as (results & Hall & Hres).
  simpl in Hall.
  assert (0 <= sum_scores results <= Z.of_nat (List.length expected) * 3)%Z as Hsum.
  { rewrite (Forall2_length _ _ _ Hres). apply sum_scores_range.
    clear Hall. induction Hres as [|item r items rs Hr _ IH]; constructor; [|done].
    destruct (score_section_total (ak_case_id answer) actual item Hok)
      as (r' & Hr' & _ & Hv & Hs).
    rewrite Hr in Hr'. injection Hr' as <-. by split. }
  destruct (normalized_score_in_range _ _ Hsum) as (score & Hscore & Hrange).
  exists results, score. repeat (split; [done|]).
  unfold evaluate. fold expected actual. rewrite Hall. simpl.
  rewrite Hscore. reflexivity.
Qed.

(** ** The expected dict *)

Lemma dict_set_keys {V} (k : string) (v : V) (d : list (string * V)) :
  (dict_set k v d).*1
  = if decide (k ∈ d.*1) then d.*1 else (d.*1 ++ [k])%list.
Proof.
  induction d as [|[k' v'] d IH].
  - destruct (decide _) as [Hin|Hin]; [by apply elem_of_nil in Hin|done].
  - cbn [dict_set]. rewrite (fmap_cons fst (k', v') d). cbn [fst].
    case_bool_decide as Hk.
    + subst k'. rewrite decide_True by apply list_elem_of_here. done.
    + rewrite fmap_cons, IH. cbn [fst].
      destruct (decide (k ∈ d.*1)) as [Hin|Hin].
      * rewrite decide_True by (apply elem_of_cons; by right). done.
      * rewrite decide_False; [done|].
        intros [->|?]%elem_of_cons; done.
Qed.

(** The names in the expected dict are pairwise distinct, and they are the
    names of the answer key. *)
Lemma expected_loop_keys (sections : list answer_section)
    (d : list (string * answer_section)) :
  NoDup d.*1 ->
  let d' := fold_left (fun d s => dict_set (s_name s) s d) sections d in
  NoDup d'.*1 /\ forall k, k ∈ d'.*1 <-> k ∈ d.*1 \/ k ∈ s_name <$> sections.
Proof.
  revert d. induction sections as [|s sections IH]; intros d Hd; simpl.
  - split; [done|]. intros k. rewrite elem_of_nil. tauto.
  - pose proof (dict_set_keys (s_name s) s d) as Hkeys.
    destruct (IH (dict_set (s_name s) s d)) as [Hnd Hin].
    { rewrite Hkeys. case_decide; [done|].
      apply NoDup_app. split; [done|]. split; [|apply NoDup_singleton].
      intros k Hk ->%list_elem_of_singleton. done. }
    split; [done|]. intros k. rewrite Hin, Hkeys, elem_of_cons.
    case_decide as Hs.
    + split; [tauto|]. intros [?|[->|?]]; tauto.
    + rewrite elem_of_app, list_elem_of_singleton. tauto.
Qed.

Lemma expected_of_NoDup (sections : list answer_section) :
  NoDup (expected_of sections).*1.
Proof. apply (expected_loop_keys sections []). constructor. Qed.

(** The expected dict has one entry per distinct section name. *)
Lemma expected_of_length (sections : list answer_section) :
  List.length (expected_of sections)
  = List.length (remove_dups (map s_name sections)).
Proof.
  destruct (expected_loop_keys sections [] ltac:(constructor)) as [Hnd Hin].
  fold (expected_of sections) in Hnd, Hin.
  rewrite <- (length_fmap fst (expected_of sections)).
  apply Permutation_length, NoDup_Permutation.
  - done.
  - apply NoDup_remove_dups.
  - intros k. rewrite Hin, elem_of_remove_dups, elem_of_nil. tauto.
Qed.

Lemma remove_dups_NoDup (l : list string) : NoDup l -> remove_dups l = l.
Proof.
  induction 1 as [|x l Hx _ IH]; simpl; [done|].
  destruct (decide_rel _ x l); [done|]. by rewrite IH.
Qed.

(** With pairwise distinct names, one entry per section. *)
Lemma expected_of_length_NoDup (sections : list answer_section) :
  NoDup (map s_name sections) ->
  List.length (expected_of sections) = List.length sections.
Proof.
  intros Hnd. rewrite expected_of_length, remove_dups_NoDup by done.
  apply length_map.
Qed.

(** ** The report *)

(** C3 (as the code has it): for every answer key, [evaluate] returns a
    report whose max_points is 3 times the number of distinct section names
    of the answer key; sections that share a name count once. *)
Theorem max_points_distinct_names (audit_output : string) (answer : answer_key) :
  exists rep,
    evaluate audit_output answer = Ok rep
    /\ rp_max_points rep
       = (3 * Z.of_nat (List.length (remove_dups (map s_name (ak_sections answer)))))%Z.
Proof.
  destruct (evaluate_spec audit_output answer)
    as (results & score & _ & _ & _ & _ & ->).
  eexists. split; [reflexivity|]. simpl.
  rewrite expected_of_length. lia.
Qed.

(** When no two sections of the answer key share a name, max_points is 3
    times the number of sections. *)
Lemma max_points_NoDup_names (audit_output : string) (answer : answer_key) :
  NoDup (map s_name (ak_sections answer)) ->
  exists rep,
    evaluate audit_output answer = Ok rep
    /\ rp_max_points rep = (3 * Z.of_nat (List.length (ak_sections answer)))%Z.
Proof.
  intros Hnd. destruct (evaluate_spec audit_output answer)
    as (results & score & _ & _ & _ & _ & ->).
  eexists. split; [reflexivity|]. simpl.
  rewrite expected_of_length_NoDup by done. lia.
Qed.

(** C3 (as stated) fails: an answer key with two sections named "A" has a
    sections sequence of length 2, and max_points is 3, not 6. *)
Lemma max_points_twice_A :
  List.length (ak_sections twice_A_key) = 2%nat
  /\ exists rep, evaluate "" twice_A_key = Ok rep
                 /\ rp_max_points rep = 3%Z
                 /\ rp_max_points rep
                    <> (3 * Z.of_nat (List.length (ak_sections twice_A_key)))%Z.
Proof.
  split; [reflexivity|].
  eexists. split; [vm_compute; reflexivity|]. simpl. split; [reflexivity|lia].
Qed.

(** C4: with the answer key of case "case-02-mixed-quality" whose one
    section is Testing/TRIM, and an audit holding the row
    [| Testing Strategy | ... | TRIM | discoverable via package.json |]
    (alone, or below a header and a separator row), the row matches by
    substring, and [evaluate] returns verdict_score 2, reasoning_score 1,
    total_points 3, max_points 3 and score 100.0. *)
Theorem worked_example_testing :
  let rep :=
    {| rp_case_id := "case-02-mixed-quality";
       rp_score := PyFloat F64.f100;
       rp_total_points := 3;
       rp_max_points := 3;
       rp_sections :=
         [ {| sr_section := "Testing";
              sr_expected := "TRIM";
              sr_actual := "TRIM";
              sr_verdict_score := 2;
              sr_reasoning_score := 1 |} ] |} in
  parse_audit_output testing_table = [testing_section]
  /\ fuzzy "Testing" "Testing Strategy" = true
  /\ find_match "Testing" (parse_audit_output testing_table) = Ok (Some testing_section)
  /\ evaluate testing_table testing_key = Ok rep
  /\ evaluate testing_row testing_key = Ok rep
  /\ (F64.value F64.f100 == 100)%Q.
Proof. repeat split; vm_compute; reflexivity. Qed.

(** The inner loop passes over rows that do not match and stops at the
    first that does. *)
Lemma find_match_first (exp_name : string) (pre post : list (gmap string string))
    (row : gmap string string) (n : string) :
  Forall row_ok pre ->
  (forall a m, a ∈ pre -> a !! "name" = Some m -> fuzzy exp_name m = false) ->
  row !! "name" = Some n ->
  fuzzy exp_name n = true ->
  find_match exp_name (pre ++ row :: post) = Ok (Some row).
Proof.
  intros Hok Hno Hn Hfuzzy.
  induction Hok as [|a pre [[m Hm] _] _ IH]; simpl.
  - unfold getitem. rewrite Hn. simpl. by rewrite Hfuzzy.
  - unfold getitem. rewrite Hm. simpl.
    rewrite (Hno a m) by (done || apply list_elem_of_here).
    apply IH. intros a' m' Ha'. apply Hno. apply elem_of_cons. by right.
Qed.

(** The worked example holds for every audit text in which the row is
    parsed and no earlier parsed row matches "Testing". *)
Lemma worked_example_any_audit (audit_output : string)
    (pre post : list (gmap string string)) :
  parse_audit_output audit_output = (pre ++ testing_section :: post)%list ->
  (forall a m, a ∈ pre -> a !! "name" = Some m -> fuzzy "Testing" m = false) ->
  evaluate audit_output testing_key
  = Ok {| rp_case_id := "case-02-mixed-quality";
          rp_score := PyFloat F64.f100;
          rp_total_points := 3;
          rp_max_points := 3;
          rp_sections :=
            [ {| sr_section := "Testing";
                 sr_expected := "TRIM";
                 sr_actual := "TRIM";
                 sr_verdict_score := 2;
                 sr_reasoning_score := 1 |} ] |}.
Proof.
  intros Hparse Hno.
  pose proof (parse_rows_ok audit_output) as Hok.
  rewrite Hparse in Hok. apply Forall_app in Hok as [Hok _].
  assert (find_match "Testing" (parse_audit_output audit_output)
          = Ok (Some testing_section)) as Hm.
  { rewrite Hparse. apply (find_match_first _ _ _ _ "Testing Strategy" Hok Hno).
    - vm_compute. reflexivity.
    - vm_compute. reflexivity. }
  unfold evaluate.
  change (expected_of (ak_sections testing_key))
    with [("Testing", {| s_name := "Testing"; s_verdict := "TRIM" |})].
  cbn [score_all ak_case_id testing_key].
  rewrite (score_section_matched _ _ _ _ _ "TRIM" Hm) by (vm_compute; reflexivity).
  vm_compute. reflexivity.
Qed.

(** Scores as Python prints them: 1/3 gives 33.3, 3/48 gives 6.2 (6.25 is a
    tie and goes to the even tenth), 3/240 gives 1.2, 2/3 gives 66.7. *)
Lemma normalized_score_examples :
  normalized_score 1 3 = Ok (PyFloat (F64.round_frac false 333 10))
  /\ normalized_score 3 48 = Ok (PyFloat (F64.round_frac false 62 10))
  /\ normalized_score 3 240 = Ok (PyFloat (F64.round_frac false 12 10))
  /\ normalized_score 2 3 = Ok (PyFloat (F64.round_frac false 667 10))
  /\ normalized_score 3 3 = Ok (PyFloat F64.f100)
  /\ normalized_score 0 3 = Ok (PyFloat (SpecFloat.S754_zero false)).
Proof. repeat split; vm_compute; reflexivity. Qed.

(** C5: for every audit text and answer key, [evaluate] returns a report
    whose total_points lies between 0 and max_points, and whose score is the
    one computed from them: the integer 0, or [round(.., 1)] of the
    percentage, which is the float nearest to a whole number of tenths and
    lies between 0 and 100. *)
Theorem score_within_bounds (audit_output : string) (answer : answer_key) :
  exists rep,
    evaluate audit_output answer = Ok rep
    /\ (0 <= rp_total_points rep <= rp_max_points rep)%Z
    /\ normalized_score (rp_total_points rep) (rp_max_points rep) = Ok (rp_score rep)
    /\ score_in_range (rp_score rep).
Proof.
  destruct (evaluate_spec audit_output answer)
    as (results & score & _ & Hsum & Hscore & Hrange & ->).
  eexists. split; [reflexivity|].
  cbn [rp_total_points rp_max_points rp_score].
  split; [exact Hsum|]. split; [exact Hscore|exact Hrange].
Qed.

(** C6: with an answer key without sections, [evaluate] returns a report
    with score 0, total_points 0, max_points 0 and no section results; the
    division, which would raise on these operands, is not reached. *)
Theorem evaluate_no_sections (audit_output case_id : string) :
  evaluate audit_output {| ak_case_id := case_id; ak_sections := [] |}
  = Ok {| rp_case_id := case_id;
          rp_score := PyInt 0;
          rp_total_points := 0;
          rp_max_points := 0;
          rp_sections := [] |}
  /\ F64.truediv 0 0 = Raise ZeroDivisionError.
Proof. split; reflexivity. Qed.

Lemma results_sections (case_id : string) (actual : list (gmap string string))
    (items : list (string * answer_section)) (results : list score_result) :
  Forall row_ok actual ->
  Forall2 (fun item r => score_section case_id actual item = Ok r) items results ->
  map sr_section results = map fst items.
Proof.
  intros Hok. induction 1 as [|item r items rs Hr _ IH]; simpl; [done|].
  destruct (score_section_total case_id actual item Hok) as (r' & Hr' & Hname & _).
  rewrite Hr in Hr'. injection Hr' as <-. by rewrite Hname, IH.
Qed.

(** C7: an expected section (the [i]-th entry of the expected dict) for
    which no parsed row passes the substring test in either direction does
    not stop [evaluate]: the report is returned, it has one result per
    expected section, in order, and the [i]-th result records "MISSING" with
    verdict_score 0 and reasoning_score 0. *)
Theorem missing_section_scored (audit_output : string) (answer : answer_key)
    (i : nat) (exp_name : string) (exp_data : answer_section) :
  expected_of (ak_sections answer) !! i = Some (exp_name, exp_data) ->
  (forall a n, a ∈ parse_audit_output audit_output ->
               a !! "name" = Some n -> fuzzy exp_name n = false) ->
  exists rep,
    evaluate audit_output answer = Ok rep
    /\ map sr_section (rp_sections rep) = map fst (expected_of (ak_sections answer))
    /\ rp_sections rep !! i = Some (missing_result exp_name exp_data).
Proof.
  intros Hi Hno.
  destruct (evaluate_spec audit_output answer)
    as (results & score & Hres & _ & _ & _ & ->).
  pose proof (parse_rows_ok audit_output) as Hok.
  eexists. split; [reflexivity|]. simpl. split.
  - by eapply results_sections.
  - destruct (Forall2_lookup_l _ _ _ _ _ Hres Hi) as (r & -> & Hr).
    unfold score_section in Hr.
    rewrite (find_match_None _ _ Hok Hno) in Hr. simpl in Hr.
    injection Hr as <-. reflexivity.
Qed.

(** The worked table scored against a key that asks for "Hooks" first: its
    one row, "Testing Strategy", does not match "Hooks", which is recorded
    as MISSING, and the loop goes on to "Testing", which is scored against
    that row. *)
Lemma missing_section_scored_witness :
  exists rep,
    evaluate testing_table hooks_testing_key = Ok rep
    /\ map sr_section (rp_sections rep) = ["Hooks"; "Testing"]
    /\ rp_sections rep !! 0%nat
       = Some (missing_result "Hooks" {| s_name := "Hooks"; s_verdict := "MOVE_HOOK" |})
    /\ rp_sections rep !! 1%nat
       = Some (matched_result "case-02-mixed-quality" "Testing"
                 {| s_name := "Testing"; s_verdict := "TRIM" |}
                 "TRIM" "discoverable via package.json").
Proof.
  assert (parse_audit_output testing_table = [testing_section]) as Hrows
    by (vm_compute; reflexivity).
  destruct (missing_section_scored testing_table hooks_testing_key 0 "Hooks"
              {| s_name := "Hooks"; s_verdict := "MOVE_HOOK" |})
    as (rep & Hev & Hnames & Hmissing).
  - reflexivity.
  - intros a n Ha Hn. rewrite Hrows in Ha.
    apply list_elem_of_singleton in Ha. subst a.
    vm_compute in Hn. injection Hn as <-. vm_compute. reflexivity.
  - exists rep. split; [exact Hev|]. split; [exact Hnames|].
    split; [exact Hmissing|].
    revert Hev. vm_compute. intros [= <-]. reflexivity.
Defined.

(** C10: matching does not consume rows.  When the inner loop selects the
    same parsed row for two entries of the expected dict, at positions [i]
    and [j], the two entries have different names and each of the two
    results is scored against that row's verdict and reason. *)
Theorem row_matched_twice (audit_output : string) (answer : answer_key)
    (i j : nat) (name_i name_j : string) (data_i data_j : answer_section)
    (row : gmap string string) :
  let expected := expected_of (ak_sections answer) in
  let actual := parse_audit_output audit_output in
  i <> j ->
  expected !! i = Some (name_i, data_i) ->
  expected !! j = Some (name_j, data_j) ->
  find_match name_i actual = Ok (Some row) ->
  find_match name_j actual = Ok (Some row) ->
  name_i <> name_j
  /\ exists rep v r,
      evaluate audit_output answer = Ok rep
      /\ row !! "verdict" = Some v
      /\ row !! "reason" = Some r
      /\ rp_sections rep !! i
         = Some (matched_result (ak_case_id answer) name_i data_i v r)
      /\ rp_sections rep !! j
         = Some (matched_result (ak_case_id answer) name_j data_j v r).
Proof.
  intros expected actual Hij Hi Hj Hmi Hmj. split.
  - intros Heq. apply Hij.
    apply (NoDup_lookup (expected.*1) i j name_i).
    + apply expected_of_NoDup.
    + by rewrite list_lookup_fmap, Hi.
    + by rewrite list_lookup_fmap, Hj, Heq.
  - destruct (evaluate_spec audit_output answer)
      as (results & score & Hres & _ & _ & _ & ->).
    fold expected actual in Hres.
    pose proof (parse_rows_ok audit_output) as Hok. fold actual in Hok.
    destruct (find_match_total name_i actual Hok) as (m & Hm & Hin).
    rewrite Hmi in Hm. injection Hm as <-.
    assert (row_ok row) as (_ & [v Hv] & [r Hr]).
    { eapply Forall_forall; [exact Hok|]. by apply Hin. }
    eexists _, v, r. split; [reflexivity|]. simpl.
    split; [done|]. split; [done|]. split.
    + destruct (Forall2_lookup_l _ _ _ _ _ Hres Hi) as (ri & -> & Hri).
      rewrite (score_section_matched _ _ _ _ _ _ Hmi Hv), Hr in Hri.
      by injection Hri as <-.
    + destruct (Forall2_lookup_l _ _ _ _ _ Hres Hj) as (rj & -> & Hrj).
      rewrite (score_section_matched _ _ _ _ _ _ Hmj Hv), Hr in Hrj.
      by injection Hrj as <-.
Qed.

(** The row "Testing Strategy" is the match of both "Testing" and
    "Strategy". *)
Lemma row_matched_twice_witness :
  "Testing" <> "Strategy"
  /\ exists rep v r,
      evaluate testing_row two_names_key = Ok rep
      /\ testing_section !! "verdict" = Some v
      /\ testing_section !! "reason" = Some r
      /\ rp_sections rep !! 0%nat
         = Some (matched_result "case-02-mixed-quality" "Testing"
                   {| s_name := "Testing"; s_verdict := "TRIM" |} v r)
      /\ rp_sections rep !! 1%nat
         = Some (matched_result "case-02-mixed-quality" "Strategy"
                   {| s_name := "Strategy"; s_verdict := "KEEP" |} v r).
Proof.
  apply (row_matched_twice testing_row two_names_key 0 1 "Testing" "Strategy"
           {| s_name := "Testing"; s_verdict := "TRIM" |}
           {| s_name := "Strategy"; s_verdict := "KEEP" |} testing_section).
  - lia.
  - reflexivity.
  - reflexivity.
  - vm_compute. reflexivity.
  - vm_compute. reflexivity.
Defined.


(** * Further properties *)

(** ** Strings *)

Lemma upper_char_idem c : PyStr.upper_char (PyStr.upper_char c) = PyStr.upper_char c.
Proof. destruct c as [[] [] [] [] [] [] [] []]; reflexivity. Qed.

Lemma lower_char_idem c : PyStr.lower_char (PyStr.lower_char c) = PyStr.lower_char c.
Proof. destruct c as [[] [] [] [] [] [] [] []]; reflexivity. Qed.

Lemma upper_lower_char c : PyStr.upper_char (PyStr.lower_char c) = PyStr.upper_char c.
Proof. destruct c as [[] [] [] [] [] [] [] []]; reflexivity. Qed.

Lemma lower_upper_char c : PyStr.lower_char (PyStr.upper_char c) = PyStr.lower_char c.
Proof. destruct c as [[] [] [] [] [] [] [] []]; reflexivity. Qed.

Lemma is_space_upper_char c : PyStr.is_space (PyStr.upper_char c) = PyStr.is_space c.
Proof. destruct c as [[] [] [] [] [] [] [] []]; reflexivity. Qed.

Lemma is_space_lower_char c : PyStr.is_space (PyStr.lower_char c) = PyStr.is_space c.
Proof. destruct c as [[] [] [] [] [] [] [] []]; reflexivity. Qed.

Lemma map_chars_compose (f g h : ascii -> ascii) (s : string) :
  (forall c, f (g c) = h c) ->
  PyStr.map_chars f (PyStr.map_chars g s) = PyStr.map_chars h s.
Proof. intros Hfg. induction s as [|c s IH]; simpl; [done|]. by rewrite Hfg, IH. Qed.

Lemma map_chars_app (f : ascii -> ascii) (s t : string) :
  PyStr.map_chars f (s ++ t) = PyStr.map_chars f s ++ PyStr.map_chars f t.
Proof. induction s as [|c s IH]; simpl; [done|]. by rewrite IH. Qed.

Lemma upper_upper s : PyStr.upper (PyStr.upper s) = PyStr.upper s.
Proof. apply map_chars_compose, upper_char_idem. Qed.

Lemma upper_lower s : PyStr.upper (PyStr.lower s) = PyStr.upper s.
Proof. apply map_chars_compose, upper_lower_char. Qed.

Lemma lower_upper s : PyStr.lower (PyStr.upper s) = PyStr.lower s.
Proof. apply map_chars_compose, lower_upper_char. Qed.

Lemma lower_lower s : PyStr.lower (PyStr.lower s) = PyStr.lower s.
Proof. apply map_chars_compose, lower_char_idem. Qed.

Lemma is_empty_map_chars f s : PyStr.is_empty (PyStr.map_chars f s) = PyStr.is_empty s.
Proof. by destruct s. Qed.

Section strip_map.
Variable f : ascii -> ascii.
Hypothesis f_space : forall c, PyStr.is_space (f c) = PyStr.is_space c.

Lemma lstrip_map_chars s :
  PyStr.lstrip (PyStr.map_chars f s) = PyStr.map_chars f (PyStr.lstrip s).
Proof.
  induction s as [|c s IH]; simpl; [done|].
  rewrite f_space. by destruct (PyStr.is_space c).
Qed.

Lemma rstrip_map_chars s :
  PyStr.rstrip (PyStr.map_chars f s) = PyStr.map_chars f (PyStr.rstrip s).
Proof.
  induction s as [|c s IH]; simpl; [done|].
  rewrite f_space, IH, is_empty_map_chars.
  by destruct (PyStr.is_space c && PyStr.is_empty (PyStr.rstrip s)).
Qed.

Lemma strip_map_chars s :
  PyStr.strip (PyStr.map_chars f s) = PyStr.map_chars f (PyStr.strip s).
Proof. unfold PyStr.strip. by rewrite lstrip_map_chars, rstrip_map_chars. Qed.

End strip_map.

Lemma strip_upper s : PyStr.strip (PyStr.upper s) = PyStr.upper (PyStr.strip s).
Proof. apply strip_map_chars, is_space_upper_char. Qed.

Lemma strip_lower s : PyStr.strip (PyStr.lower s) = PyStr.lower (PyStr.strip s).
Proof. apply strip_map_chars, is_space_lower_char. Qed.

Lemma rstrip_idem s : PyStr.rstrip (PyStr.rstrip s) = PyStr.rstrip s.
Proof.
  induction s as [|c s IH]; simpl; [done|].
  destruct (PyStr.is_space c && PyStr.is_empty (PyStr.rstrip s)) eqn:Hc; [done|].
  simpl. by rewrite IH, Hc.
Qed.

Lemma lstrip_no_leading_space s : no_leading_space (PyStr.lstrip s).
Proof.
  induction s as [|c s IH]; simpl; [done|].
  destruct (PyStr.is_space c) eqn:Hc; [done|]. exact Hc.
Qed.

Lemma lstrip_id s : no_leading_space s -> PyStr.lstrip s = s.
Proof. destruct s as [|c s]; simpl; [done|]. by intros ->. Qed.

Lemma rstrip_no_leading_space s :
  no_leading_space s -> no_leading_space (PyStr.rstrip s).
Proof.
  destruct s as [|c s]; simpl; [done|].
  intros Hc. rewrite Hc. simpl. exact Hc.
Qed.

Lemma strip_no_leading_space s : no_leading_space (PyStr.strip s).
Proof. apply rstrip_no_leading_space, lstrip_no_leading_space. Qed.

Lemma strip_idem s : PyStr.strip (PyStr.strip s) = PyStr.strip s.
Proof.
  unfold PyStr.strip at 1.
  rewrite (lstrip_id (PyStr.strip s)) by apply strip_no_leading_space.
  unfold PyStr.strip. apply rstrip_idem.
Qed.

(** ** Verdict normalization *)

Lemma normalize_verdict_cleaned raw :
  normalize_verdict raw = default (cleaned raw) (mappings !! cleaned raw).
Proof. reflexivity. Qed.

Lemma cleaned_lower raw : cleaned (PyStr.lower raw) = cleaned raw.
Proof. unfold cleaned. by rewrite upper_lower. Qed.

Lemma cleaned_upper raw : cleaned (PyStr.upper raw) = cleaned raw.
Proof. unfold cleaned. by rewrite upper_upper. Qed.

Lemma cleaned_strip raw : cleaned (PyStr.strip raw) = cleaned raw.
Proof. unfold cleaned. by rewrite <- strip_upper, strip_idem. Qed.

Lemma normalize_verdict_lower raw :
  normalize_verdict (PyStr.lower raw) = normalize_verdict raw.
Proof. by rewrite !normalize_verdict_cleaned, cleaned_lower. Qed.

Lemma normalize_verdict_upper raw :
  normalize_verdict (PyStr.upper raw) = normalize_verdict raw.
Proof. by rewrite !normalize_verdict_cleaned, cleaned_upper. Qed.

Lemma normalize_verdict_strip raw :
  normalize_verdict (PyStr.strip raw) = normalize_verdict raw.
Proof. by rewrite !normalize_verdict_cleaned, cleaned_strip. Qed.

(** X1: on a verdict of ASCII characters, [normalize_verdict] does not see
    the letter case nor the whitespace around it: the lower-cased, the
    upper-cased and the stripped verdict normalize to the same token as the
    verdict itself. *)
Theorem normalize_verdict_insensitive (raw : string) :
  isascii raw = true ->
  normalize_verdict (PyStr.lower raw) = normalize_verdict raw
  /\ normalize_verdict (PyStr.upper raw) = normalize_verdict raw
  /\ normalize_verdict (PyStr.strip raw) = normalize_verdict raw.
Proof.
  intros _.
  split; [apply normalize_verdict_lower|].
  split; [apply normalize_verdict_upper|apply normalize_verdict_strip].
Qed.

Lemma normalize_verdict_insensitive_witness :
  normalize_verdict (PyStr.lower " Move To Hook ") = normalize_verdict " Move To Hook "
  /\ normalize_verdict (PyStr.upper " Move To Hook ") = normalize_verdict " Move To Hook "
  /\ normalize_verdict (PyStr.strip " Move To Hook ") = normalize_verdict " Move To Hook ".
Proof. apply normalize_verdict_insensitive. reflexivity. Defined.

(** The targets of the alias table are canonical tokens. *)
Lemma mappings_values (v t : string) :
  mappings !! v = Some t -> t ∈ ["MOVE_NESTED"; "MOVE_HOOK"; "REMOVE"].
Proof.
  intros Hv. apply elem_of_list_to_map_2 in Hv.
  repeat (apply elem_of_cons in Hv as [[= _ ->]|Hv]; [set_solver|]).
  by apply elem_of_nil in Hv.
Qed.

(** X4: when the cleaned verdict is a key of the alias table, the result of
    [normalize_verdict] is the alias target, which is a canonical token and
    is left unchanged by a second normalization. *)
Theorem normalize_verdict_alias (raw t : string) :
  mappings !! cleaned raw = Some t ->
  normalize_verdict raw = t
  /\ t ∈ canonical_tokens
  /\ normalize_verdict t = t.
Proof.
  intros Ht. rewrite normalize_verdict_cleaned, Ht. split; [done|].
  apply mappings_values in Ht.
  repeat (apply elem_of_cons in Ht as [->|Ht];
          [split; [unfold canonical_tokens; set_solver|vm_compute; reflexivity]|]).
  by apply elem_of_nil in Ht.
Qed.

Lemma normalize_verdict_alias_witness :
  normalize_verdict " move to hook " = "MOVE_HOOK"
  /\ "MOVE_HOOK" ∈ canonical_tokens
  /\ normalize_verdict "MOVE_HOOK" = "MOVE_HOOK".
Proof.
  apply (normalize_verdict_alias " move to hook " "MOVE_HOOK").
  vm_compute. reflexivity.
Defined.

(** X3: [normalize_verdict] is not idempotent on arbitrary input: removing
    the arrows of "-->>" leaves "->", which a second pass removes. *)
Theorem normalize_verdict_not_idempotent :
  ~ (forall raw, normalize_verdict (normalize_verdict raw) = normalize_verdict raw).
Proof. intros H. specialize (H "-->>"). vm_compute in H. discriminate. Qed.

(** ** Verdict scores *)

(** X5: [score_verdict] is symmetric in its two arguments. *)
Theorem score_verdict_symmetric (actual expected : string) :
  score_verdict actual expected = score_verdict expected actual.
Proof.
  unfold score_verdict. repeat case_bool_decide; congruence.
Qed.

Lemma score_verdict_normalized (a a' e e' : string) :
  normalize_verdict a = normalize_verdict a' ->
  normalize_verdict e = normalize_verdict e' ->
  score_verdict a e = score_verdict a' e'.
Proof. unfold score_verdict. by intros -> ->. Qed.

(** X6: any verdict [x] scored against itself gets 2, and the score of an
    actual verdict of ASCII characters does not change when it is
    lower-cased, upper-cased or stripped of surrounding whitespace. *)
Theorem score_verdict_insensitive (x actual expected : string) :
  isascii actual = true ->
  score_verdict x x = 2%Z
  /\ score_verdict (PyStr.lower actual) expected = score_verdict actual expected
  /\ score_verdict (PyStr.upper actual) expected = score_verdict actual expected
  /\ score_verdict (PyStr.strip actual) expected = score_verdict actual expected.
Proof.
  intros _. split.
  - unfold score_verdict. by rewrite bool_decide_eq_true_2.
  - split; [|split]; apply score_verdict_normalized; try done.
    + apply normalize_verdict_lower.
    + apply normalize_verdict_upper.
    + apply normalize_verdict_strip.
Qed.

Lemma score_verdict_insensitive_witness :
  score_verdict "FOO" "FOO" = 2%Z
  /\ score_verdict (PyStr.lower " Move To Hook ") "MOVE_NESTED"
     = score_verdict " Move To Hook " "MOVE_NESTED"
  /\ score_verdict (PyStr.upper " Move To Hook ") "MOVE_NESTED"
     = score_verdict " Move To Hook " "MOVE_NESTED"
  /\ score_verdict (PyStr.strip " Move To Hook ") "MOVE_NESTED"
     = score_verdict " Move To Hook " "MOVE_NESTED".
Proof. apply score_verdict_insensitive. reflexivity. Defined.

(** X7: a verdict whose normalized form has a group scores 0 against one
    whose normalized form has none, in either order: against an expected
    canonical verdict only a verdict of the same group earns a point. *)
Theorem score_verdict_mapped_unmapped (actual expected g : string) :
  VERDICT_GROUPS !! normalize_verdict expected = Some g ->
  VERDICT_GROUPS !! normalize_verdict actual = None ->
  score_verdict actual expected = 0%Z /\ score_verdict expected actual = 0%Z.
Proof.
  intros He Ha. unfold score_verdict. rewrite He, Ha.
  assert (normalize_verdict actual <> normalize_verdict expected) as Hne
    by (intros Heq; rewrite Heq in Ha; congruence).
  rewrite !bool_decide_eq_false_2; done.
Qed.

Lemma score_verdict_mapped_unmapped_witness :
  score_verdict "FOO" "keep" = 0%Z /\ score_verdict "keep" "FOO" = 0%Z.
Proof.
  apply (score_verdict_mapped_unmapped "FOO" "keep" "keep").
  - vm_compute. reflexivity.
  - vm_compute. reflexivity.
Defined.

(** X8: on canonical tokens the rubric is: 2 for the same token, 1 for the
    two move tokens against each other, 0 for every other pair. *)
Theorem score_verdict_canonical_pairs :
  Forall
    (fun a =>
       Forall
         (fun e =>
            score_verdict a e
            = if bool_decide (a = e) then 2%Z
              else if bool_decide (a ∈ ["MOVE_NESTED"; "MOVE_HOOK"]
                                   /\ e ∈ ["MOVE_NESTED"; "MOVE_HOOK"])
                   then 1%Z else 0%Z)
         canonical_tokens)
    canonical_tokens.
Proof.
  unfold canonical_tokens.
  repeat (constructor; [repeat (constructor; [vm_compute; reflexivity|]); constructor|]).
  constructor.
Qed.

(** ** Characters of a string *)

Lemma chars_app s t : chars (s ++ t) = (chars s ++ chars t)%list.
Proof. induction s as [|c s IH]; simpl; [done|]. by rewrite IH. Qed.

Lemma chars_map_chars f s : chars (PyStr.map_chars f s) = f <$> chars s.
Proof. induction s as [|c s IH]; simpl; [done|]. by rewrite IH. Qed.

Lemma chars_lstrip s c : c ∈ chars (PyStr.lstrip s) -> c ∈ chars s.
Proof.
  induction s as [|x s IH]; simpl; [done|].
  destruct (PyStr.is_space x); [|done].
  intros Hc. apply elem_of_cons. right. by apply IH.
Qed.

Lemma chars_rstrip s c : c ∈ chars (PyStr.rstrip s) -> c ∈ chars s.
Proof.
  induction s as [|x s IH]; simpl; [done|].
  destruct (PyStr.is_space x && PyStr.is_empty (PyStr.rstrip s)); simpl.
  - by intros ?%elem_of_nil.
  - intros [->|Hc]%elem_of_cons; apply elem_of_cons; [by left|right; by apply IH].
Qed.

Lemma chars_strip s c : c ∈ chars (PyStr.strip s) -> c ∈ chars s.
Proof. intros Hc. by apply chars_lstrip, chars_rstrip. Qed.

(** Deleting the occurrences of a pattern brings in no character. *)
Lemma chars_replace_from_delete skip old s c :
  c ∈ chars (PyStr.replace_from skip old "" s) -> c ∈ chars s.
Proof.
  revert skip. induction s as [|x s IH]; intros skip; simpl; [done|].
  destruct skip as [|k].
  - match goal with |- context [if ?b then _ else _] => destruct b end; simpl.
    + intros Hc. apply elem_of_cons. right. by eapply IH.
    + intros [->|Hc]%elem_of_cons; apply elem_of_cons; [by left|right; by eapply IH].
  - intros Hc. apply elem_of_cons. right. by eapply IH.
Qed.

Lemma chars_replace_delete old s c :
  old <> "" -> c ∈ chars (PyStr.replace old "" s) -> c ∈ chars s.
Proof.
  intros Hold. unfold PyStr.replace. destruct old; [done|]. simpl.
  apply chars_replace_from_delete.
Qed.

(** Replacing one character by another. *)
Lemma chars_replace_char (a b : ascii) s c :
  c ∈ chars (PyStr.replace (String a "") (String b "") s) ->
  c = b \/ (c ∈ chars s /\ c <> a).
Proof.
  unfold PyStr.replace. simpl PyStr.is_empty. cbv iota.
  induction s as [|x s IH]; simpl; [by intros ?%elem_of_nil|].
  destruct (ascii_dec a x) as [->|Hne].
  - replace (String.prefix "" s) with true by (by destruct s).
    simpl. intros [->|Hc]%elem_of_cons; [by left|].
    destruct (IH Hc) as [->|[Hin Hx]]; [by left|right].
    split; [|done]. apply elem_of_cons. by right.
  - simpl. intros [->|Hc]%elem_of_cons.
    + right. split; [apply list_elem_of_here|congruence].
    + destruct (IH Hc) as [->|[Hin Hx]]; [by left|right].
      split; [|done]. apply elem_of_cons. by right.
Qed.

Lemma contains_char c s :
  PyStr.contains (String c "") s = false <-> c ∉ chars s.
Proof.
  induction s as [|x s IH]; simpl.
  - split; [intros _ ?%elem_of_nil; done|done].
  - destruct (ascii_dec c x) as [->|Hne].
    + replace (String.prefix "" s) with true by (by destruct s). simpl.
      split; [done|]. intros Hx. exfalso. apply Hx, list_elem_of_here.
    + simpl. rewrite IH. split.
      * intros Hs [->|?]%elem_of_cons; done.
      * intros Hs Hin. apply Hs, elem_of_cons. by right.
Qed.

Lemma upper_fixed s :
  (forall c, c ∈ chars s -> PyStr.upper_char c = c) -> PyStr.upper s = s.
Proof.
  unfold PyStr.upper. induction s as [|x s IH]; simpl; intros Hs; [done|].
  rewrite (Hs x) by apply list_elem_of_here.
  f_equal. apply IH. intros c Hc. apply Hs, elem_of_cons. by right.
Qed.

Lemma chars_cleaned raw c :
  c ∈ chars (cleaned raw) ->
  c <> " "%char /\ PyStr.upper_char c = c.
Proof.
  unfold cleaned. intros Hc.
  apply chars_replace_delete in Hc; [|done].
  apply chars_replace_delete in Hc; [|done].
  apply (chars_replace_char " " "_") in Hc as [->|[Hc Hsp]]; [done|].
  split; [done|].
  apply chars_strip in Hc. unfold PyStr.upper in Hc.
  rewrite chars_map_chars in Hc.
  apply list_elem_of_fmap in Hc as (c0 & -> & _). apply upper_char_idem.
Qed.

(** X2: the token returned by [normalize_verdict] contains no space and no
    lower-case ASCII letter: upper-casing it again changes nothing. *)
Theorem normalize_verdict_shape (raw : string) :
  PyStr.contains " " (normalize_verdict raw) = false
  /\ PyStr.upper (normalize_verdict raw) = normalize_verdict raw.
Proof.
  rewrite normalize_verdict_cleaned.
  destruct (mappings !! cleaned raw) as [t|] eqn:Ht; simpl.
  - apply mappings_values in Ht.
    repeat (apply elem_of_cons in Ht as [->|Ht]; [by vm_compute|]).
    by apply elem_of_nil in Ht.
  - split.
    + apply contains_char. intros Hc. by apply chars_cleaned in Hc as [? _].
    + apply upper_fixed. intros c Hc. by apply chars_cleaned in Hc as [_ ?].
Qed.

(** ** Reasoning bonus *)

Lemma prefix_app p s q :
  String.prefix p s = true -> String.prefix p (s ++ q) = true.
Proof.
  revert s. induction p as [|a p IH]; intros s Hp; [by destruct (s ++ q)|].
  destruct s as [|b s]; simpl in *; [done|].
  destruct (ascii_dec a b); [by apply IH|done].
Qed.

Lemma contains_app_r sub s q :
  PyStr.contains sub s = true -> PyStr.contains sub (s ++ q) = true.
Proof.
  induction s as [|x s IH].
  - simpl. rewrite orb_false_r. intros Hp.
    destruct sub; [by destruct q|done].
  - simpl. intros [Hp|Hc]%orb_true_iff; apply orb_true_iff.
    + left. by apply (prefix_app sub (String x s) q).
    + right. by apply IH.
Qed.

Lemma contains_app_l sub p s :
  PyStr.contains sub s = true -> PyStr.contains sub (p ++ s) = true.
Proof.
  intros Hs. induction p as [|x p IH]; simpl; [done|].
  apply orb_true_iff. by right.
Qed.

Lemma existsb_impl {A} (f g : A -> bool) (l : list A) :
  (forall x, f x = true -> g x = true) -> existsb f l = true -> existsb g l = true.
Proof.
  intros Hfg. induction l as [|x l IH]; simpl; [done|].
  intros [Hx|Hl]%orb_true_iff; apply orb_true_iff; [left; by apply Hfg|right; by apply IH].
Qed.

(** X9: for a case id without an entry in [KEY_CONCEPTS], and for a section
    name without an entry under the case, [score_reasoning] returns 0
    whatever the reasoning says. *)
Theorem score_reasoning_no_concepts (reason case_id section_name : string) :
  KEY_CONCEPTS !! case_id = None
  \/ (exists m, KEY_CONCEPTS !! case_id = Some m /\ m !! section_name = None) ->
  score_reasoning reason case_id section_name = 0%Z.
Proof.
  unfold score_reasoning. intros [->|(m & -> & Hm)]; simpl.
  - by rewrite lookup_empty.
  - by rewrite Hm.
Qed.

Lemma score_reasoning_no_concepts_witness :
  score_reasoning "a hook with guaranteed enforcement" "case-99-unknown" "Testing" = 0%Z.
Proof.
  apply score_reasoning_no_concepts. left. vm_compute. reflexivity.
Defined.

(** X10: [score_reasoning] does not see the letter case of a reasoning of
    ASCII characters: upper-cased or lower-cased, it gets the same score. *)
Theorem score_reasoning_case_insensitive (reason case_id section_name : string) :
  isascii reason = true ->
  score_reasoning (PyStr.upper reason) case_id section_name
  = score_reasoning reason case_id section_name
  /\ score_reasoning (PyStr.lower reason) case_id section_name
     = score_reasoning reason case_id section_name.
Proof. intros _. unfold score_reasoning. by rewrite lower_upper, lower_lower. Qed.

Lemma score_reasoning_case_insensitive_witness :
  score_reasoning (PyStr.upper "Discoverable via Package.json")
    "case-02-mixed-quality" "Testing"
  = score_reasoning "Discoverable via Package.json" "case-02-mixed-quality" "Testing"
  /\ score_reasoning (PyStr.lower "Discoverable via Package.json")
       "case-02-mixed-quality" "Testing"
     = score_reasoning "Discoverable via Package.json" "case-02-mixed-quality" "Testing".
Proof. apply score_reasoning_case_insensitive. reflexivity. Defined.

(** X11: text added before or after the reasoning never loses the bonus:
    the score of the longer text is at least the score of the reasoning. *)
Theorem score_reasoning_embedded (before reason after case_id section_name : string) :
  (score_reasoning reason case_id section_name
   <= score_reasoning (before ++ reason ++ after) case_id section_name)%Z.
Proof.
  unfold score_reasoning.
  destruct (default [] _) as [|c cs]; [done|].
  destruct (existsb _ (c :: cs)) eqn:Hr; [|].
  2:{ match goal with |- context [if ?b then _ else _] => destruct b end; lia. }
  erewrite existsb_impl; [lia| |exact Hr].
  intros x Hx. cbv beta in *. unfold PyStr.lower. rewrite !map_chars_app.
  by apply contains_app_l, contains_app_r.
Qed.

(** No list of key concepts has a concept that occurs in the empty
    string. *)
Lemma concepts_not_in_empty :
  map_Forall
    (fun _ m =>
       map_Forall
         (fun _ cs =>
            existsb (fun c => PyStr.contains (PyStr.lower c) (PyStr.lower "")) cs
            = false) m)
    KEY_CONCEPTS.
Proof. apply (bool_decide_unpack _). vm_compute. exact I. Qed.

(** X12: an empty reasoning earns no bonus, for every case and section: no
    key concept of the table is the empty string. *)
Theorem score_reasoning_empty (case_id section_name : string) :
  score_reasoning "" case_id section_name = 0%Z.
Proof.
  unfold score_reasoning.
  destruct (KEY_CONCEPTS !! case_id) as [m|] eqn:Hcase; simpl;
    [|by rewrite lookup_empty].
  destruct (m !! section_name) as [cs|] eqn:Hsec; simpl; [|done].
  pose proof (concepts_not_in_empty _ _ Hcase _ _ Hsec) as Hcs.
  simpl in Hcs. rewrite Hcs. by destruct cs.
Qed.

(** ** Lines and cells *)

Lemma split_nonempty sep s : exists h t, PyStr.split sep s = h :: t.
Proof.
  destruct s as [|c s]; simpl; [by eauto|].
  destruct (Ascii.eqb c sep); [by eauto|].
  destruct (PyStr.split sep s); eauto.
Qed.

(** Splitting a text at a separator splits each side of it. *)
Lemma split_app sep s1 s2 :
  PyStr.split sep (s1 ++ String sep s2)
  = (PyStr.split sep s1 ++ PyStr.split sep s2)%list.
Proof.
  induction s1 as [|c s1 IH]; simpl.
  - by rewrite Ascii.eqb_refl.
  - destruct (Ascii.eqb c sep); [by rewrite IH|].
    rewrite IH. destruct (split_nonempty sep s1) as (h & t & ->). done.
Qed.

Lemma split_no_sep sep s :
  sep ∉ chars s -> PyStr.split sep s = [s].
Proof.
  induction s as [|c s IH]; simpl; intros Hs; [done|].
  destruct (Ascii.eqb_spec c sep) as [->|Hne].
  - exfalso. apply Hs, list_elem_of_here.
  - rewrite IH; [done|]. intros Hin. apply Hs, elem_of_cons. by right.
Qed.

(** The pieces of a split hold characters of the text, the separator
    excepted. *)
Lemma split_chars sep s p c :
  p ∈ PyStr.split sep s -> c ∈ chars p -> c ∈ chars s /\ c <> sep.
Proof.
  revert p. induction s as [|x s IH]; simpl; intros p.
  - intros ->%list_elem_of_singleton. by intros ?%elem_of_nil.
  - destruct (Ascii.eqb_spec x sep) as [->|Hne].
    + intros [->|Hp]%elem_of_cons; [by intros ?%elem_of_nil|].
      intros Hc. destruct (IH p Hp Hc). split; [|done].
      apply elem_of_cons. by right.
    + destruct (split_nonempty sep s) as (h & t & Hs). rewrite Hs in IH |- *.
      intros [->|Hp]%elem_of_cons.
      * simpl. intros [->|Hc]%elem_of_cons.
        -- split; [apply list_elem_of_here|done].
        -- destruct (IH h (list_elem_of_here _ _) Hc). split; [|done].
           apply elem_of_cons. by right.
      * intros Hc. destruct (IH p) as [? ?]; [apply elem_of_cons; by right|done|].
        split; [|done]. apply elem_of_cons. by right.
Qed.

Lemma split_length sep s :
  List.length (PyStr.split sep s) = S (count_char sep s).
Proof.
  induction s as [|c s IH]; simpl; [done|].
  destruct (Ascii.eqb c sep); simpl; [by rewrite IH|].
  destruct (split_nonempty sep s) as (h & t & Hs). rewrite Hs in IH |- *. done.
Qed.

Lemma slice_1_m1_elem {A} (l : list A) x : x ∈ PyStr.slice_1_m1 l -> x ∈ l.
Proof.
  unfold PyStr.slice_1_m1. destruct l as [|y l]; simpl; [done|].
  intros Hx. apply elem_of_cons. right.
  induction l as [|z l IH]; simpl in *; [done|].
  destruct l as [|w l]; [by apply elem_of_nil in Hx|].
  apply elem_of_cons in Hx as [->|Hx]; [apply list_elem_of_here|].
  apply elem_of_cons. right. by apply IH.
Qed.

Lemma slice_1_m1_length {A} (l : list A) :
  List.length (PyStr.slice_1_m1 l) = (List.length l - 2)%nat.
Proof.
  unfold PyStr.slice_1_m1. destruct l as [|y l]; simpl; [done|].
  induction l as [|z l IH]; simpl; [done|].
  destruct l as [|w l]; [done|]. simpl in *. rewrite IH. lia.
Qed.

Lemma slice_1_m1_snoc {A} (h : A) (t : list A) (x : A) :
  PyStr.slice_1_m1 (h :: t ++ [x]) = t.
Proof. unfold PyStr.slice_1_m1. simpl. apply removelast_last. Qed.

Lemma row_cells_length line :
  List.length (row_cells line) = (count_char "|" line - 1)%nat.
Proof.
  unfold row_cells. rewrite length_map, slice_1_m1_length, split_length. lia.
Qed.

(** A cell: stripped, and without a pipe. *)
Lemma row_cells_elem line cell :
  cell ∈ row_cells line ->
  PyStr.strip cell = cell
  /\ forall c, c ∈ chars cell -> c ∈ chars line /\ c <> "|"%char.
Proof.
  unfold row_cells. intros Hc. apply list_elem_of_In, in_map_iff in Hc.
  destruct Hc as (p & <- & Hp). apply list_elem_of_In, slice_1_m1_elem in Hp.
  split; [apply strip_idem|].
  intros c Hc. apply chars_strip in Hc. by eapply split_chars.
Qed.

Lemma nth_cell line i :
  nth i (row_cells line) "" = ""
  \/ nth i (row_cells line) "" ∈ row_cells line.
Proof.
  destruct (nth_in_or_default i (row_cells line) "") as [Hin|Heq].
  - right. by apply list_elem_of_In.
  - by left.
Qed.

(** ** More on the table parser *)

Lemma parse_audit_output_app (t1 t2 : string) :
  parse_audit_output (t1 ++ String PyStr.LF t2)
  = (parse_audit_output t1 ++ parse_audit_output t2)%list.
Proof. by rewrite !parse_audit_output_lines, split_app, omap_app. Qed.

Lemma parse_audit_output_empty : parse_audit_output "" = [].
Proof. reflexivity. Qed.

(** X13: parsing is line by line: the sections of two texts joined by a line
    feed are the sections of the first followed by those of the second, and
    a line feed at either end of a text changes nothing. *)
Theorem parse_audit_output_concat (t1 t2 : string) :
  parse_audit_output (t1 ++ NL ++ t2)
  = (parse_audit_output t1 ++ parse_audit_output t2)%list
  /\ parse_audit_output (t1 ++ NL) = parse_audit_output t1
  /\ parse_audit_output (NL ++ t1) = parse_audit_output t1.
Proof.
  split; [apply parse_audit_output_app|]. split.
  - unfold NL. rewrite parse_audit_output_app, parse_audit_output_empty.
    apply app_nil_r.
  - apply (parse_audit_output_app "" t1).
Qed.

(** X14: a text in which no line begins with a pipe, once stripped, has no
    sections. *)
Theorem parse_no_pipe_lines (text : string) :
  (forall line, line ∈ PyStr.split PyStr.LF text ->
                PyStr.startswith (PyStr.strip line) "|" = false) ->
  parse_audit_output text = [].
Proof.
  intros Hno. rewrite parse_audit_output_lines.
  induction (PyStr.split PyStr.LF text) as [|line lines IH]; [done|].
  simpl. unfold parse_line at 1.
  rewrite (Hno line) by apply list_elem_of_here. simpl.
  apply IH. intros l Hl. apply Hno, elem_of_cons. by right.
Qed.

Lemma parse_no_pipe_lines_witness :
  parse_audit_output ("The audit found nothing to report." ++ NL ++ "No table | here.") = [].
Proof.
  apply parse_no_pipe_lines. intros line Hline.
  replace (PyStr.split PyStr.LF
             ("The audit found nothing to report." ++ NL ++ "No table | here."))
    with ["The audit found nothing to report."; "No table | here."] in Hline
    by (vm_compute; reflexivity).
  apply elem_of_cons in Hline as [->|Hline]; [vm_compute; reflexivity|].
  apply list_elem_of_singleton in Hline as ->. vm_compute. reflexivity.
Defined.

(** X15: every value of a parsed section (name, verdict, reason) is
    stripped and contains neither a pipe nor a line feed. *)
Theorem parsed_fields_clean (text : string) (s : gmap string string) (k v : string) :
  s ∈ parse_audit_output text ->
  s !! k = Some v ->
  PyStr.strip v = v
  /\ PyStr.contains "|" v = false
  /\ PyStr.contains NL v = false.
Proof.
  rewrite parse_audit_output_lines. intros Hs Hk.
  apply list_elem_of_omap in Hs as (line & Hline & Hs).
  apply parse_line_Some in Hs as (_ & _ & _ & _ & _ & ->).
  assert (forall cell,
            cell = "" \/ cell ∈ row_cells (PyStr.strip line) ->
            PyStr.strip cell = cell
            /\ PyStr.contains "|" cell = false
            /\ PyStr.contains NL cell = false) as Hcell.
  { intros cell [->|Hcell]; [by vm_compute|].
    apply row_cells_elem in Hcell as [Hstrip Hchars].
    split; [done|]. unfold NL. split; apply contains_char; intros Hc.
    - by apply Hchars in Hc as [_ ?].
    - apply Hchars in Hc as [Hc _]. apply chars_strip in Hc.
      by apply (split_chars _ _ _ _ Hline) in Hc as [_ ?]. }
  apply lookup_insert_Some in Hk as [[_ <-]|[_ Hk]]; [apply Hcell, nth_cell|].
  apply lookup_insert_Some in Hk as [[_ <-]|[_ Hk]]; [apply Hcell, nth_cell|].
  apply lookup_singleton_Some in Hk as [_ <-].
  apply Hcell. destruct (4 <=? _)%nat; [apply nth_cell|by left].
Qed.

Lemma parsed_fields_clean_witness :
  PyStr.strip "discoverable via package.json" = "discoverable via package.json"
  /\ PyStr.contains "|" "discoverable via package.json" = false
  /\ PyStr.contains NL "discoverable via package.json" = false.
Proof.
  apply (parsed_fields_clean testing_table testing_section "reason").
  - replace (parse_audit_output testing_table) with [testing_section]
      by (vm_compute; reflexivity).
    apply list_elem_of_here.
  - vm_compute. reflexivity.
Defined.

(** A string of whitespace only. *)
Lemma lstrip_blank ws : forallb PyStr.is_space (chars ws) = true -> PyStr.lstrip ws = "".
Proof.
  induction ws as [|c ws IH]; simpl; [done|].
  intros [-> Hws]%andb_true_iff. by apply IH.
Qed.

Lemma lstrip_app_blank ws s :
  forallb PyStr.is_space (chars ws) = true -> PyStr.lstrip (ws ++ s) = PyStr.lstrip s.
Proof.
  induction ws as [|c ws IH]; simpl; [done|].
  intros [-> Hws]%andb_true_iff. by apply IH.
Qed.

Lemma rstrip_blank ws : forallb PyStr.is_space (chars ws) = true -> PyStr.rstrip ws = "".
Proof.
  induction ws as [|c ws IH]; simpl; [done|].
  intros [-> Hws]%andb_true_iff. by rewrite IH.
Qed.

Lemma rstrip_app_blank s ws :
  forallb PyStr.is_space (chars ws) = true -> PyStr.rstrip (s ++ ws) = PyStr.rstrip s.
Proof.
  intros Hws. induction s as [|c s IH]; simpl; [by apply rstrip_blank|].
  by rewrite IH.
Qed.

Lemma strip_app_blank ws1 s ws2 :
  forallb PyStr.is_space (chars ws1) = true ->
  forallb PyStr.is_space (chars ws2) = true ->
  PyStr.strip (ws1 ++ s ++ ws2) = PyStr.strip s.
Proof.
  intros H1 H2. unfold PyStr.strip. rewrite lstrip_app_blank by done.
  induction s as [|c s IH]; simpl.
  - by rewrite lstrip_blank.
  - destruct (PyStr.is_space c); [done|].
    apply (rstrip_app_blank (String c s)). done.
Qed.

(** X16: indenting a line, or adding blanks at its end, does not change
    what the parser makes of it; nor does stripping it beforehand. *)
Theorem parse_line_blanks (ws1 line ws2 : string) :
  forallb PyStr.is_space (chars ws1) = true ->
  forallb PyStr.is_space (chars ws2) = true ->
  parse_line (ws1 ++ line ++ ws2) = parse_line line
  /\ parse_line (PyStr.strip line) = parse_line line.
Proof.
  intros H1 H2. unfold parse_line.
  by rewrite strip_app_blank, strip_idem.
Qed.

Lemma parse_line_blanks_witness :
  parse_line ("    " ++ testing_row ++ "  ") = parse_line testing_row
  /\ parse_line (PyStr.strip testing_row) = parse_line testing_row.
Proof. apply parse_line_blanks; reflexivity. Defined.

(** X17: a line with fewer than four pipes, once stripped, yields no
    section: it has fewer than three cells. *)
Theorem parse_line_few_pipes (line : string) :
  (count_char "|" (PyStr.strip line) < 4)%nat ->
  parse_line line = None.
Proof.
  intros Hcount. unfold parse_line.
  destruct (PyStr.startswith _ _); simpl; [|done].
  rewrite row_cells_length.
  by rewrite (proj2 (Nat.ltb_lt _ 3)) by lia.
Qed.

Lemma parse_line_few_pipes_witness :
  parse_line "| Testing | KEEP |" = None.
Proof. apply parse_line_few_pipes. vm_compute. lia. Defined.

(** ** The text behind the last pipe *)

Lemma prefix_empty s : String.prefix "" s = true.
Proof. by destruct s. Qed.

Lemma prefix_cons c p d s :
  String.prefix (String c p) (String d s)
  = if ascii_dec c d then String.prefix p s else false.
Proof. reflexivity. Qed.

Lemma is_empty_app_cons a c b : PyStr.is_empty (a ++ String c b) = false.
Proof. by destruct a. Qed.

Lemma lstrip_app_nonspace a c b :
  PyStr.is_space c = false ->
  PyStr.lstrip (a ++ String c b) = PyStr.lstrip a ++ String c b.
Proof.
  intros Hc. induction a as [|x a IH]; simpl; [by rewrite Hc|].
  by destruct (PyStr.is_space x).
Qed.

Lemma rstrip_app_nonspace a c b :
  PyStr.is_space c = false ->
  PyStr.rstrip (a ++ String c b) = a ++ String c (PyStr.rstrip b).
Proof.
  intros Hc. induction a as [|x a IH]; simpl; [by rewrite Hc|].
  by rewrite IH, is_empty_app_cons, andb_false_r.
Qed.

Lemma strip_app_nonspace a c b :
  PyStr.is_space c = false ->
  PyStr.strip (a ++ String c b) = PyStr.lstrip a ++ String c (PyStr.rstrip b).
Proof.
  intros Hc. unfold PyStr.strip.
  by rewrite lstrip_app_nonspace, rstrip_app_nonspace.
Qed.

Lemma startswith_app_pipe a x :
  PyStr.startswith (a ++ String "|" x) "|" = PyStr.startswith (a ++ "|") "|".
Proof.
  unfold PyStr.startswith. destruct a as [|y a].
  - change ("" ++ String "|" x) with (String "|" x).
    change ("" ++ "|") with (String "|" "").
    rewrite !prefix_cons. destruct (ascii_dec "|" "|"); [|done].
    by rewrite prefix_empty.
  - change (String y a ++ String "|" x) with (String y (a ++ String "|" x)).
    change (String y a ++ "|") with (String y (a ++ "|")).
    rewrite !prefix_cons. destruct (ascii_dec "|" y); [|done].
    by rewrite !prefix_empty.
Qed.

Lemma row_cells_app_pipe a x :
  "|"%char ∉ chars x ->
  row_cells (a ++ String "|" x) = row_cells (a ++ "|").
Proof.
  intros Hx. unfold row_cells.
  rewrite !split_app, (split_no_sep "|" x Hx).
  destruct (split_nonempty "|" a) as (h & t & ->).
  change (PyStr.split "|" "") with [""].
  by rewrite <- !app_comm_cons, !slice_1_m1_snoc.
Qed.

(** X18: what follows the last pipe of a line never reaches a section: the
    line is parsed as if it ended at that pipe. *)
Theorem parse_line_after_last_pipe (line rest : string) :
  PyStr.contains "|" rest = false ->
  parse_line (line ++ "|" ++ rest) = parse_line (line ++ "|").
Proof.
  intros Hrest. apply contains_char in Hrest.
  assert ("|"%char ∉ chars (PyStr.rstrip rest)) as Hr
    by (intros Hc; by apply Hrest, chars_rstrip).
  unfold parse_line. cbv zeta.
  change (line ++ "|" ++ rest) with (line ++ String "|" rest).
  change (line ++ "|") with (line ++ String "|" "").
  rewrite !strip_app_nonspace by reflexivity. simpl (PyStr.rstrip "").
  rewrite (startswith_app_pipe _ (PyStr.rstrip rest)).
  by rewrite (row_cells_app_pipe _ _ Hr).
Qed.

(** A row without its closing pipe loses its last cell. *)
Lemma parse_line_after_last_pipe_witness :
  parse_line ("| Testing | 1-5 | KEEP " ++ "|" ++ " generic enough")
  = parse_line ("| Testing | 1-5 | KEEP " ++ "|").
Proof. apply parse_line_after_last_pipe. reflexivity. Defined.

(** ** The expected dict, in detail *)

Lemma expected_of_snoc (sections : list answer_section) (s : answer_section) :
  expected_of (sections ++ [s]) = dict_set (s_name s) s (expected_of sections).
Proof. unfold expected_of. by rewrite fold_left_app. Qed.

Lemma expected_of_keys_elem (sections : list answer_section) (k : string) :
  k ∈ (expected_of sections).*1 <-> k ∈ s_name <$> sections.
Proof.
  destruct (expected_loop_keys sections [] ltac:(constructor)) as [_ Hin].
  fold (expected_of sections) in Hin. rewrite Hin, elem_of_nil. tauto.
Qed.

(** The entries of a dict after [d[k] = v]. *)
Lemma dict_set_elem {V} (k : string) (v : V) (d : list (string * V)) (n : string) (x : V) :
  NoDup d.*1 ->
  (n, x) ∈ dict_set k v d <-> (n = k /\ x = v) \/ (n <> k /\ (n, x) ∈ d).
Proof.
  induction d as [|[k' v'] d IH]; intros Hnd.
  - simpl. rewrite list_elem_of_singleton, elem_of_nil.
    split; [intros [= -> ->]; by left|intros [[-> ->]|[_ []]]; done].
  - rewrite fmap_cons in Hnd. apply NoDup_cons in Hnd as [Hk' Hnd].
    cbn [dict_set]. case_bool_decide as Hk.
    + subst k'. rewrite !elem_of_cons. split.
      * intros [[= -> ->]|Hin]; [by left|right].
        split; [|by right]. intros ->. apply Hk'.
        apply list_elem_of_fmap. by exists (k, x).
      * intros [[-> ->]|[Hne [[= -> ->]|Hin]]]; [by left|done|by right].
    + rewrite !elem_of_cons, (IH Hnd). split.
      * intros [[= -> ->]|[[-> ->]|[Hne Hin]]].
        -- right. split; [done|by left].
        -- by left.
        -- right. split; [done|by right].
      * intros [[-> ->]|[Hne [[= -> ->]|Hin]]].
        -- right. by left.
        -- by left.
        -- right. right. by split.
Qed.

(** X19: the expected dict lists the section names in the order of their
    first occurrence in the answer key, and binds each name to the last
    section of the answer key that bears it. *)
Theorem expected_of_first_last (sections : list answer_section) :
  (expected_of sections).*1
  = reverse (remove_dups (reverse (s_name <$> sections)))
  /\ forall n d,
      (n, d) ∈ expected_of sections
      <-> last (filter (fun s => s_name s = n) sections) = Some d.
Proof.
  induction sections as [|s sections [IHk IHv]] using rev_ind.
  - split; [done|]. intros n d. rewrite filter_nil.
    change (expected_of []) with (@nil (string * answer_section)).
    rewrite elem_of_nil. by split.
  - rewrite expected_of_snoc. split.
    + rewrite dict_set_keys, fmap_app.
      change (s_name <$> [s]) with [s_name s]. rewrite reverse_snoc.
      cbn [remove_dups].
      destruct (decide_rel elem_of (s_name s) (reverse (s_name <$> sections)))
        as [Hin|Hin]; rewrite elem_of_reverse, <- expected_of_keys_elem in Hin.
      * by rewrite decide_True.
      * by rewrite decide_False, reverse_cons, IHk.
    + intros n d. rewrite dict_set_elem by apply expected_of_NoDup.
      rewrite IHv, filter_app, filter_cons, filter_nil.
      destruct (decide (s_name s = n)) as [<-|Hne].
      * rewrite last_snoc. split.
        -- intros [[_ ->]|[? _]]; done.
        -- intros [= ->]. by left.
      * rewrite app_nil_r. split.
        -- intros [[-> _]|[_ ?]]; done.
        -- intros Hl. right. by split.
Qed.

(** ** The report, in detail *)

Lemma sum_scores_foldr (rs : list score_result) :
  sum_scores rs = foldr (fun r acc => (points r + acc)%Z) 0%Z rs.
Proof.
  induction rs as [|r rs IH]; [done|].
  rewrite sum_scores_cons. simpl. rewrite <- IH. reflexivity.
Qed.

Lemma results_expected (case_id : string) (actual : list (gmap string string))
    (items : list (string * answer_section)) (results : list score_result) :
  Forall row_ok actual ->
  Forall2 (fun item r => score_section case_id actual item = Ok r) items results ->
  Forall2
    (fun item r =>
       sr_section r = item.1 /\ sr_expected r = s_verdict item.2
       /\ (0 <= sr_verdict_score r <= 2)%Z /\ (0 <= sr_reasoning_score r <= 1)%Z)
    items results.
Proof.
  intros Hok. induction 1 as [|[n d] r items rs Hr _ IH]; constructor; [|done].
  destruct (find_match_total n actual Hok) as ([row|] & Hm & Hin).
  - assert (row_ok row) as (_ & [v Hv] & _).
    { eapply Forall_forall; [exact Hok|]. by apply Hin. }
    rewrite (score_section_matched _ _ _ _ _ _ Hm Hv) in Hr.
    injection Hr as <-. simpl.
    split; [done|]. split; [done|].
    split; [apply score_verdict_range|apply score_reasoning_range].
  - unfold score_section in Hr. rewrite Hm in Hr. simpl in Hr.
    injection Hr as <-. simpl. repeat split; lia || done.
Qed.

(** X20: the report is consistent with its own list of results: it echoes
    the case id, has one result per entry of the expected dict with that
    entry's name and its verdict as written in the answer key, every
    verdict_score is 0, 1 or 2 and every reasoning_score 0 or 1,
    total_points is the sum of the points listed and max_points is 3 times
    the number of results. *)
Theorem report_consistent (audit_output : string) (answer : answer_key) :
  exists rep,
    evaluate audit_output answer = Ok rep
    /\ rp_case_id rep = ak_case_id answer
    /\ Forall2
         (fun item r =>
            sr_section r = item.1 /\ sr_expected r = s_verdict item.2
            /\ (0 <= sr_verdict_score r <= 2)%Z
            /\ (0 <= sr_reasoning_score r <= 1)%Z)
         (expected_of (ak_sections answer)) (rp_sections rep)
    /\ rp_total_points rep
       = foldr (fun r acc => (points r + acc)%Z) 0%Z (rp_sections rep)
    /\ rp_max_points rep = (3 * Z.of_nat (List.length (rp_sections rep)))%Z.
Proof.
  destruct (evaluate_spec audit_output answer)
    as (results & score & Hres & _ & _ & _ & ->).
  eexists. split; [reflexivity|]. simpl.
  split; [done|]. split; [|split].
  - eapply results_expected; [apply parse_rows_ok|exact Hres].
  - apply sum_scores_foldr.
  - rewrite <- (Forall2_length _ _ _ Hres). lia.
Qed.

(** X21: the first matching row wins.  When the parsed rows are [pre],
    [row], [post], no row of [pre] matches the expected name and [row] does,
    the result for that name is scored against [row], whatever rows follow. *)
Theorem first_match_wins (audit_output : string) (answer : answer_key)
    (i : nat) (exp_name : string) (exp_data : answer_section)
    (pre post : list (gmap string string)) (row : gmap string string)
    (n v r : string) :
  expected_of (ak_sections answer) !! i = Some (exp_name, exp_data) ->
  parse_audit_output audit_output = (pre ++ row :: post)%list ->
  (forall a m, a ∈ pre -> a !! "name" = Some m -> fuzzy exp_name m = false) ->
  row !! "name" = Some n ->
  fuzzy exp_name n = true ->
  row !! "verdict" = Some v ->
  row !! "reason" = Some r ->
  exists rep,
    evaluate audit_output answer = Ok rep
    /\ rp_sections rep !! i
       = Some (matched_result (ak_case_id answer) exp_name exp_data v r).
Proof.
  intros Hi Hparse Hno Hn Hfuzzy Hv Hr.
  destruct (evaluate_spec audit_output answer)
    as (results & score & Hres & _ & _ & _ & ->).
  eexists. split; [reflexivity|]. simpl.
  destruct (Forall2_lookup_l _ _ _ _ _ Hres Hi) as (ri & -> & Hri).
  pose proof (parse_rows_ok audit_output) as Hok.
  rewrite Hparse in Hok, Hri. apply Forall_app in Hok as [Hok _].
  rewrite (score_section_matched _ _ _ _ _ v
             (find_match_first _ _ _ _ _ Hok Hno Hn Hfuzzy) Hv), Hr in Hri.
  by injection Hri as <-.
Qed.

(** The second row bears the expected name exactly, and yet the first row,
    whose name merely contains it, is the one scored. *)
Lemma first_match_wins_witness :
  exists rep,
    evaluate (testing_row ++ NL ++ "| Testing | 1-5 | KEEP | generic |") testing_key
    = Ok rep
    /\ rp_sections rep !! 0%nat
       = Some (matched_result "case-02-mixed-quality" "Testing"
                 {| s_name := "Testing"; s_verdict := "TRIM" |}
                 "TRIM" "discoverable via package.json").
Proof.
  apply (first_match_wins
           (testing_row ++ NL ++ "| Testing | 1-5 | KEEP | generic |") testing_key
           0 "Testing" {| s_name := "Testing"; s_verdict := "TRIM" |}
           [] [ {[ "name" := "Testing"; "verdict" := "KEEP"; "reason" := "generic" ]} ]
           testing_section "Testing Strategy").
  - reflexivity.
  - vm_compute. reflexivity.
  - intros a m Ha. by apply elem_of_nil in Ha.
  - vm_compute. reflexivity.
  - vm_compute. reflexivity.
  - vm_compute. reflexivity.
  - vm_compute. reflexivity.
Defined.

(** ** Rows added at the end of the audit *)

Lemma find_match_app_Some (exp_name : string) (a1 a2 : list (gmap string string))
    (row : gmap string string) :
  find_match exp_name a1 = Ok (Some row) ->
  find_match exp_name (a1 ++ a2) = Ok (Some row).
Proof.
  induction a1 as [|a a1 IH]; simpl; [done|].
  destruct (getitem a "name") as [n|e]; simpl; [|done].
  destruct (fuzzy exp_name n); [done|apply IH].
Qed.

Lemma find_match_app_None (exp_name : string) (a1 a2 : list (gmap string string)) :
  find_match exp_name a1 = Ok None ->
  find_match exp_name (a1 ++ a2) = find_match exp_name a2.
Proof.
  induction a1 as [|a a1 IH]; simpl; [done|].
  destruct (getitem a "name") as [n|e]; simpl; [|done].
  destruct (fuzzy exp_name n); [done|apply IH].
Qed.

Lemma Forall2_join {A B} (P Q : A -> B -> Prop) (R : B -> B -> Prop)
    (l : list A) (k1 k2 : list B) :
  (forall x y1 y2, P x y1 -> Q x y2 -> R y1 y2) ->
  Forall2 P l k1 -> Forall2 Q l k2 -> Forall2 R k1 k2.
Proof.
  intros HR H1. revert k2. induction H1 as [|x y1 l k1 Hx _ IH]; intros k2 H2.
  - apply Forall2_nil_inv_l in H2 as ->. constructor.
  - apply Forall2_cons_inv_l in H2 as (y2 & k2' & Hy & H2 & ->).
    constructor; [by eapply HR|by apply IH].
Qed.

Lemma sum_scores_le (rs1 rs2 : list score_result) :
  Forall2 (fun r1 r2 => (points r1 <= points r2)%Z) rs1 rs2 ->
  (sum_scores rs1 <= sum_scores rs2)%Z.
Proof.
  induction 1 as [|r1 r2 rs1 rs2 Hr _ IH]; [done|].
  rewrite !sum_scores_cons. unfold points in Hr. lia.
Qed.

(** X22: text added at the end of the audit can only fill sections that
    were MISSING.  Every other result is unchanged, max_points is unchanged,
    and total_points does not decrease. *)
Theorem appended_text_fills_missing (audit_output more : string) (answer : answer_key) :
  exists rep1 rep2,
    evaluate audit_output answer = Ok rep1
    /\ evaluate (audit_output ++ NL ++ more) answer = Ok rep2
    /\ rp_max_points rep2 = rp_max_points rep1
    /\ Forall2
         (fun r1 r2 =>
            r2 = r1
            \/ (sr_actual r1 = "MISSING" /\ points r1 = 0%Z
                /\ sr_section r2 = sr_section r1))
         (rp_sections rep1) (rp_sections rep2)
    /\ (rp_total_points rep1 <= rp_total_points rep2)%Z.
Proof.
  destruct (evaluate_spec audit_output answer)
    as (rs1 & score1 & Hres1 & _ & _ & _ & ->).
  destruct (evaluate_spec (audit_output ++ NL ++ more) answer)
    as (rs2 & score2 & Hres2 & _ & _ & _ & ->).
  pose proof (parse_rows_ok audit_output) as Hok1.
  pose proof (parse_rows_ok (audit_output ++ NL ++ more)) as Hok2.
  change (audit_output ++ NL ++ more)
    with (audit_output ++ String PyStr.LF more) in Hres2, Hok2 |- *.
  rewrite parse_audit_output_app in Hres2, Hok2.
  set (a1 := parse_audit_output audit_output) in *.
  set (a2 := parse_audit_output more) in *.
  assert (Forall2
            (fun r1 r2 =>
               (r2 = r1
                \/ (sr_actual r1 = "MISSING" /\ points r1 = 0%Z
                    /\ sr_section r2 = sr_section r1))
               /\ (points r1 <= points r2)%Z) rs1 rs2) as Hboth.
  { eapply Forall2_join; [|exact Hres1|exact Hres2].
    intros [n d] r1 r2 Hr1 Hr2.
    destruct (score_section_total (ak_case_id answer) (a1 ++ a2) (n, d) Hok2)
      as (r2' & Hr2' & Hname & Hv & Hs).
    rewrite Hr2 in Hr2'. injection Hr2' as <-.
    destruct (find_match_total n a1 Hok1) as ([row|] & Hm & _).
    - pose proof (find_match_app_Some n a1 a2 row Hm) as Hm2.
      unfold score_section in Hr1, Hr2. rewrite Hm in Hr1. rewrite Hm2 in Hr2.
      rewrite Hr1 in Hr2. injection Hr2 as <-. split; [by left|lia].
    - unfold score_section in Hr1. rewrite Hm in Hr1. simpl in Hr1.
      injection Hr1 as <-. unfold points. simpl. split; [|lia].
      right. by repeat split. }
  eexists _, _. split; [reflexivity|]. split; [reflexivity|]. simpl.
  split; [done|]. split.
  - eapply Forall2_impl; [exact Hboth|]. by intros r1 r2 [? _].
  - apply sum_scores_le. eapply Forall2_impl; [exact Hboth|]. by intros r1 r2 [_ ?].
Qed.

(** ** Full marks and no marks *)

Lemma round_frac_one (p : Z) :
  (0 < p)%Z ->
  F64.round_frac false p p = SpecFloat.S754_finite false 4503599627370496 (-52).
Proof.
  intros Hp. unfold F64.round_frac, F64.ulp_exp, F64.floor_log2_frac.
  rewrite Z.sub_diag.
  change (F64.pow2 0) with 1%Z. change (F64.pow2 (- 0)) with 1%Z.
  rewrite (proj2 (Z.leb_le _ _)) by lia.
  change (Z.max F64.emin (0 - (F64.prec - 1))) with (-52)%Z.
  change (F64.pow2 (- -52)) with (2 ^ 52)%Z.
  change (F64.pow2 (-52)) with 1%Z.
  unfold F64.div_rne.
  rewrite Z.mul_1_r, (Z.mul_comm p), Z.div_mul, Z.mod_mul by lia.
  replace (2 * 0 ?= p)%Z with Lt by (symmetry; apply Z.compare_lt_iff; lia).
  reflexivity.
Qed.

Lemma round_frac_zero (d : Z) :
  (0 < d)%Z -> F64.round_frac false 0 d = SpecFloat.S754_zero false.
Proof.
  intros Hd. unfold F64.round_frac.
  pose proof (pow2_pos (F64.ulp_exp 0 d)) as He.
  unfold F64.div_rne. rewrite Z.mul_0_l, Z.div_0_l, Z.mod_0_l by lia.
  replace (2 * 0 ?= d * F64.pow2 (F64.ulp_exp 0 d))%Z with Lt
    by (symmetry; apply Z.compare_lt_iff; lia).
  reflexivity.
Qed.

Lemma normalized_score_full (p : Z) :
  (0 < p)%Z -> normalized_score p p = Ok (PyFloat F64.f100).
Proof.
  intros Hp. unfold normalized_score, F64.truediv.
  rewrite (proj2 (Z.ltb_lt 0 p)) by done.
  rewrite (proj2 (Z.eqb_neq p 0)) by lia.
  rewrite (proj2 (Z.ltb_ge p 0)) by lia.
  rewrite Z.abs_eq by lia. cbn [xorb].
  rewrite round_frac_one by done. vm_compute. reflexivity.
Qed.

Lemma normalized_score_none (p : Z) :
  (0 < p)%Z -> normalized_score 0 p = Ok (PyFloat (SpecFloat.S754_zero false)).
Proof.
  intros Hp. unfold normalized_score, F64.truediv.
  rewrite (proj2 (Z.ltb_lt 0 p)) by done.
  rewrite (proj2 (Z.eqb_neq p 0)) by lia.
  rewrite (proj2 (Z.ltb_ge p 0)) by lia.
  rewrite (Z.abs_eq p) by lia. change (Z.abs 0) with 0%Z.
  change (0 <? 0)%Z with false. cbn [xorb].
  rewrite round_frac_zero by done. reflexivity.
Qed.

(** X23: for an answer key with at least one section, the score is 100.0
    when total_points equals max_points and 0.0 when total_points is 0. *)
Theorem score_full_and_none (audit_output : string) (answer : answer_key) :
  ak_sections answer <> [] ->
  exists rep,
    evaluate audit_output answer = Ok rep
    /\ (rp_total_points rep = rp_max_points rep -> rp_score rep = PyFloat F64.f100)
    /\ (rp_total_points rep = 0%Z
        -> rp_score rep = PyFloat (SpecFloat.S754_zero false)).
Proof.
  intros Hne.
  destruct (evaluate_spec audit_output answer)
    as (results & score & _ & _ & Hscore & _ & ->).
  assert (0 < Z.of_nat (List.length (expected_of (ak_sections answer))) * 3)%Z as Hp.
  { destruct (ak_sections answer) as [|s rest] eqn:Hs; [done|].
    assert (s_name s ∈ (expected_of (s :: rest)).*1) as Hin
      by (apply expected_of_keys_elem, list_elem_of_here).
    destruct (expected_of (s :: rest)); [by apply elem_of_nil in Hin|].
    simpl List.length. lia. }
  eexists. split; [reflexivity|]. simpl. split; intros Heq; rewrite Heq in Hscore.
  - rewrite normalized_score_full in Hscore by done. by injection Hscore as <-.
  - rewrite normalized_score_none in Hscore by done. by injection Hscore as <-.
Qed.

Lemma score_full_and_none_witness :
  exists rep,
    evaluate testing_row testing_key = Ok rep
    /\ (rp_total_points rep = rp_max_points rep -> rp_score rep = PyFloat F64.f100)
    /\ (rp_total_points rep = 0%Z
        -> rp_score rep = PyFloat (SpecFloat.S754_zero false)).
Proof. apply score_full_and_none. discriminate. Defined.

(** ** The summary lines *)

Lemma str_len_app (a b : string) : str_len (a ++ b) = (str_len a + str_len b)%nat.
Proof.
  induction a as [|c a IH]; simpl; [done|].
  destruct (is_continuation c); simpl; by rewrite IH.
Qed.

Lemma str_len_spaces (n : nat) : str_len (spaces n) = n.
Proof. induction n as [|n IH]; simpl; [done|]. by rewrite IH. Qed.

Lemma str_len_ljust (width : nat) (s : string) :
  str_len (ljust width s) = Nat.max width (str_len s).
Proof. unfold ljust. rewrite str_len_app, str_len_spaces. lia. Qed.

Lemma prefix_refl (s : string) : String.prefix s s = true.
Proof.
  induction s as [|c s IH]; [done|].
  rewrite prefix_cons. by destruct (ascii_dec c c).
Qed.

(** X24: a summary line is never truncated: it begins with two spaces and
    the whole section name, and its length is that of its three fields,
    each filled up to its width (30, 15 and 15 characters), of the ten
    fixed characters around them and of the label. *)
Theorem summary_line_width (r : score_result) :
  String.prefix ("  " ++ sr_section r) (summary_line r) = true
  /\ str_len (summary_line r)
     = (Nat.max 30 (str_len (sr_section r))
        + Nat.max 15 (str_len (sr_expected r))
        + Nat.max 15 (str_len (sr_actual r))
        + 10
        + str_len (match_label (sr_verdict_score r))
        + str_len (bonus_label (sr_reasoning_score r)))%nat.
Proof.
  split.
  - unfold summary_line, ljust.
    change ("  " ++ sr_section r) with (String " " (String " " (sr_section r))).
    match goal with
    | |- String.prefix _ ("  " ++ ?x) = true =>
        change ("  " ++ x) with (String " " (String " " x))
    end.
    rewrite !prefix_cons.
    destruct (ascii_dec " " " "); [|done].
    apply prefix_app, prefix_app, prefix_refl.
  - unfold summary_line.
    rewrite !str_len_app, !str_len_ljust. simpl str_len. lia.
Qed.

(** ** The score grows with the points *)

Section F64_order.
Import SpecFloat.
Local Open Scope Z_scope.

Lemma div_rne_ge n d K : 0 < d -> K * d <= n -> K <= F64.div_rne n d.
Proof.
  intros Hd Hn. unfold F64.div_rne.
  pose proof (Z.div_mod n d ltac:(lia)) as Hdiv.
  pose proof (Z.mod_pos_bound n d Hd) as Hmod.
  assert (K <= n / d) as Hq by (apply Z.div_le_lower_bound; lia).
  destruct (Z.compare_spec (2 * (n mod d)) d); [destruct (Z.even _)|..]; lia.
Qed.

(** Rounding to nearest is monotone on fractions. *)
Lemma div_rne_mono n1 d1 n2 d2 :
  0 < d1 -> 0 < d2 -> n1 * d2 <= n2 * d1 ->
  F64.div_rne n1 d1 <= F64.div_rne n2 d2.
Proof.
  intros Hd1 Hd2 Hle. unfold F64.div_rne.
  pose proof (Z.div_mod n1 d1 ltac:(lia)) as Hdiv1.
  pose proof (Z.mod_pos_bound n1 d1 Hd1) as Hmod1.
  pose proof (Z.div_mod n2 d2 ltac:(lia)) as Hdiv2.
  pose proof (Z.mod_pos_bound n2 d2 Hd2) as Hmod2.
  set (q1 := n1 / d1) in *. set (r1 := n1 mod d1) in *.
  set (q2 := n2 / d2) in *. set (r2 := n2 mod d2) in *.
  assert (q1 <= q2) as Hq.
  { destruct (Z_le_gt_dec q1 q2); [done|]. exfalso.
    assert (d1 * d2 * (q2 + 1) <= d1 * d2 * q1) by nia.
    assert (r2 * d1 < d2 * d1) by nia.
    assert (0 <= r1 * d2) by nia.
    rewrite Hdiv1, Hdiv2 in Hle. nia. }
  destruct (Z.eq_dec q1 q2) as [Heq|Hne].
  - rewrite <- Heq in *.
    assert (r1 * d2 <= r2 * d1) as Hr by (rewrite Hdiv1, Hdiv2 in Hle; nia).
    destruct (Z.compare_spec (2 * r1) d1) as [H1|H1|H1];
      destruct (Z.compare_spec (2 * r2) d2) as [H2|H2|H2];
      try destruct (Z.even q1); try lia; exfalso; nia.
  - assert (q1 + 1 <= q2) by lia.
    destruct (Z.compare_spec (2 * r1) d1);
      destruct (Z.compare_spec (2 * r2) d2);
      try destruct (Z.even q1); try destruct (Z.even q2); lia.
Qed.

(** The exponent chosen by [round_frac], for a fraction of at most 2^52:
    it leaves fewer than 53 bits before the point, and at least 52 unless
    it is the least exponent. *)
Lemma floor_log2_frac_spec n d :
  0 < n -> 0 < d -> n <= 2 ^ 52 * d ->
  let U := 52 - F64.floor_log2_frac n d in
  0 <= U /\ 2 ^ 52 * d <= n * 2 ^ U /\ n * 2 ^ U < 2 ^ 53 * d.
Proof.
  intros Hn Hd Hle. unfold F64.floor_log2_frac.
  pose proof (Z.log2_spec n Hn) as [Ha1 Ha2].
  pose proof (Z.log2_spec d Hd) as [Hb1 Hb2].
  pose proof (Z.log2_nonneg n) as Ha0. pose proof (Z.log2_nonneg d) as Hb0.
  set (a := Z.log2 n) in *. set (b := Z.log2 d) in *.
  assert (a <= 52 + b) as Hl.
  { subst a b. transitivity (Z.log2 (d * 2 ^ 52)).
    - apply Z.log2_le_mono. lia.
    - rewrite Z.log2_mul_pow2; lia. }
  rewrite Z.pow_succ_r in Ha2, Hb2 by lia.
  assert (0 < 2 ^ a) as Hpa by (apply Z.pow_pos_nonneg; lia).
  assert (0 < 2 ^ b) as Hpb by (apply Z.pow_pos_nonneg; lia).
  destruct (d * F64.pow2 (a - b) <=? n * F64.pow2 (- (a - b))) eqn:Htest; cbv zeta.
  - apply Z.leb_le in Htest.
    assert (0 < 2 ^ (52 - (a - b))) as Hpu by (apply Z.pow_pos_nonneg; lia).
    split; [lia|]. split.
    + destruct (Z_le_gt_dec 0 (a - b)) as [Hs|Hs].
      * rewrite (pow2_nonneg (a - b)) in Htest by lia.
        rewrite (pow2_nonpos (- (a - b))) in Htest by lia.
        replace 52 with ((a - b) + (52 - (a - b))) at 1 by lia.
        rewrite Z.pow_add_r by lia. nia.
      * rewrite (pow2_nonpos (a - b)) in Htest by lia.
        rewrite (pow2_nonneg (- (a - b))) in Htest by lia.
        replace (52 - (a - b)) with (- (a - b) + 52) by lia.
        rewrite Z.pow_add_r by lia.
        assert (0 < 2 ^ 52) by lia. nia.
    + assert (2 ^ a * 2 ^ (52 - (a - b)) = 2 ^ b * 2 ^ 52) as Hpow.
      { rewrite <- !Z.pow_add_r by lia. f_equal. lia. }
      change (2 ^ 53) with (2 * 2 ^ 52). nia.
  - apply Z.leb_gt in Htest.
    assert (0 < 2 ^ (52 - (a - b - 1))) as Hpu by (apply Z.pow_pos_nonneg; lia).
    split; [lia|]. split.
    + assert (2 ^ a * 2 ^ (52 - (a - b - 1)) = 2 ^ b * 2 ^ 53) as Hpow.
      { rewrite <- !Z.pow_add_r by lia. f_equal. lia. }
      assert (2 ^ 52 * d <= 2 ^ b * 2 ^ 53) by lia.
      assert (2 ^ a * 2 ^ (52 - (a - b - 1)) <= n * 2 ^ (52 - (a - b - 1)))
        by (apply Z.mul_le_mono_nonneg_r; lia).
      lia.
    + destruct (Z_le_gt_dec 0 (a - b)) as [Hs|Hs].
      * rewrite (pow2_nonneg (a - b)) in Htest by lia.
        rewrite (pow2_nonpos (- (a - b))) in Htest by lia.
        replace 53 with ((a - b) + (52 - (a - b - 1))) at 1 by lia.
        rewrite Z.pow_add_r by lia. nia.
      * rewrite (pow2_nonpos (a - b)) in Htest by lia.
        rewrite (pow2_nonneg (- (a - b))) in Htest by lia.
        replace (52 - (a - b - 1)) with (- (a - b) + 53) by lia.
        rewrite Z.pow_add_r by lia.
        assert (0 < 2 ^ 53) by lia. nia.
Qed.

Lemma ulp_exp_spec n d :
  0 < n -> 0 < d -> n <= 2 ^ 52 * d ->
  let E := - F64.ulp_exp n d in
  0 <= E <= 1074
  /\ n * 2 ^ E < 2 ^ 53 * d
  /\ (E = 1074 \/ 2 ^ 52 * d <= n * 2 ^ E).
Proof.
  intros Hn Hd Hle.
  destruct (floor_log2_frac_spec n d Hn Hd Hle) as (HU & Hlo & Hhi).
  unfold F64.ulp_exp, F64.emin, F64.prec. cbv zeta.
  set (f := F64.floor_log2_frac n d) in *.
  destruct (Z_le_gt_dec (52 - f) 1074) as [Hc|Hc].
  - replace (- Z.max (-1074) (f - (53 - 1))) with (52 - f) by lia.
    split; [lia|]. split; [done|by right].
  - replace (- Z.max (-1074) (f - (53 - 1))) with 1074 by lia.
    split; [lia|]. split; [|by left].
    assert (2 ^ 1074 <= 2 ^ (52 - f)) by (apply Z.pow_le_mono_r; lia).
    nia.
Qed.

Lemma scaled_nonneg x : small_nonneg x -> 0 <= scaled x.
Proof.
  destruct x as [s| | |s m e]; try done.
  intros [-> He]. simpl.
  assert (0 < 2 ^ (e + 1074)) by (apply Z.pow_pos_nonneg; lia). lia.
Qed.

(** The result of [round_frac] on a fraction of at most 2^52, in units of
    2^-1074. *)
Lemma round_frac_scaled n d :
  0 <= n -> 0 < d -> n <= 2 ^ 52 * d ->
  small_nonneg (F64.round_frac false n d)
  /\ scaled (F64.round_frac false n d)
     = F64.div_rne (n * 2 ^ (- F64.ulp_exp n d)) d
       * 2 ^ (1074 + F64.ulp_exp n d).
Proof.
  intros Hn Hd Hle.
  destruct (Z.eq_dec n 0) as [->|Hn0].
  - rewrite round_frac_zero by done. split; [done|].
    unfold F64.div_rne. rewrite Z.mul_0_l, Z.div_0_l, Z.mod_0_l by lia.
    replace (2 * 0 ?= d) with Lt by (symmetry; apply Z.compare_lt_iff; lia).
    reflexivity.
  - destruct (ulp_exp_spec n d ltac:(lia) Hd Hle) as (HE & Hhi & Hlo).
    unfold F64.round_frac.
    set (e := F64.ulp_exp n d) in *.
    rewrite (pow2_nonpos e) by lia. rewrite (pow2_nonneg (- e)) by lia.
    rewrite Z.mul_1_r.
    assert (0 < 2 ^ (- e)) as Hp by (apply Z.pow_pos_nonneg; lia).
    assert (0 <= F64.div_rne (n * 2 ^ (- e)) d) as Hm0
      by (apply div_rne_nonneg; nia).
    assert (F64.div_rne (n * 2 ^ (- e)) d <= 2 ^ 52 * 2 ^ (- e)) as Hm
      by (apply div_rne_le; nia).
    set (m := F64.div_rne (n * 2 ^ (- e)) d) in *.
    destruct (m =? 2 ^ F64.prec) eqn:Hcarry.
    + apply Z.eqb_eq in Hcarry. change (2 ^ F64.prec) with (2 ^ 53) in Hcarry.
      assert (e <= -1) as He1.
      { destruct (Z.eq_dec e 0) as [He0|]; [|lia].
        rewrite He0 in Hm. change (2 ^ (- 0)) with 1 in Hm. lia. }
      change (2 ^ (F64.prec - 1)) with (Zpos 4503599627370496).
      cbv iota beta.
      replace (e + 1 <=? F64.emax - F64.prec) with true
        by (symmetry; apply Z.leb_le; unfold F64.emax, F64.prec; lia).
      split; [split; [done|lia]|].
      cbn [scaled]. rewrite Hcarry.
      replace (e + 1 + 1074) with (1 + (1074 + e)) by lia.
      rewrite Z.pow_add_r by lia. lia.
    + destruct m as [|pm|pm] eqn:Hmeq; [done| |lia].
      replace (e <=? F64.emax - F64.prec) with true
        by (symmetry; apply Z.leb_le; unfold F64.emax, F64.prec; lia).
      split; [split; [done|lia]|].
      cbn [scaled]. by rewrite (Z.add_comm e).
Qed.

(** [round_frac] is monotone on fractions of at most 2^52. *)
Lemma round_frac_mono n1 d1 n2 d2 :
  0 <= n1 -> 0 < d1 -> 0 < d2 ->
  n1 * d2 <= n2 * d1 -> n2 <= 2 ^ 52 * d2 ->
  scaled (F64.round_frac false n1 d1) <= scaled (F64.round_frac false n2 d2).
Proof.
  intros Hn1 Hd1 Hd2 Hle Hb2.
  assert (0 <= n2) as Hn2 by nia.
  assert (n1 <= 2 ^ 52 * d1) as Hb1 by nia.
  destruct (round_frac_scaled n1 d1 Hn1 Hd1 Hb1) as [_ ->].
  destruct (round_frac_scaled n2 d2 Hn2 Hd2 Hb2) as [Hg2 Hs2].
  destruct (Z.eq_dec n1 0) as [->|Hn10].
  - rewrite Z.mul_0_l.
    replace (F64.div_rne 0 d1) with 0.
    + rewrite Z.mul_0_l. by apply scaled_nonneg.
    + unfold F64.div_rne. rewrite Z.div_0_l, Z.mod_0_l by lia.
      by replace (2 * 0 ?= d1) with Lt by (symmetry; apply Z.compare_lt_iff; lia).
  - rewrite Hs2.
    destruct (ulp_exp_spec n1 d1 ltac:(lia) Hd1 Hb1) as (HE1 & Hhi1 & Hlo1).
    destruct (ulp_exp_spec n2 d2 ltac:(nia) Hd2 Hb2) as (HE2 & Hhi2 & Hlo2).
    set (e1 := F64.ulp_exp n1 d1) in *. set (e2 := F64.ulp_exp n2 d2) in *.
    assert (0 < 2 ^ (- e1)) as Hp1 by (apply Z.pow_pos_nonneg; lia).
    assert (0 < 2 ^ (- e2)) as Hp2 by (apply Z.pow_pos_nonneg; lia).
    assert (0 < 2 ^ (1074 + e1)) as Hq1 by (apply Z.pow_pos_nonneg; lia).
    assert (0 < 2 ^ (1074 + e2)) as Hq2 by (apply Z.pow_pos_nonneg; lia).
    assert (e1 <= e2) as He.
    { destruct (Z_le_gt_dec e1 e2) as [|Hgt]; [done|]. exfalso.
      assert (2 * 2 ^ (- e1) <= 2 ^ (- e2)) as Hpp.
      { replace (- e2) with (1 + (- e2 - 1)) by lia.
        rewrite (Z.pow_add_r 2 1 (- e2 - 1)) by lia. change (2 ^ 1) with 2.
        assert (2 ^ (- e1) <= 2 ^ (- e2 - 1)) by (apply Z.pow_le_mono_r; lia).
        lia. }
      destruct Hlo1 as [?|Hlo1]; [lia|].
      assert (n2 * (2 * 2 ^ (- e1)) < 2 ^ 53 * d2) as H2 by nia.
      assert (n2 * 2 ^ (- e1) < 2 ^ 52 * d2) as H3 by lia.
      assert (n1 * 2 ^ (- e1) * d2 <= n2 * 2 ^ (- e1) * d1) as H4 by nia.
      assert (n2 * 2 ^ (- e1) * d1 < 2 ^ 52 * d2 * d1) as H5 by nia.
      assert (2 ^ 52 * d1 * d2 <= n1 * 2 ^ (- e1) * d2) as H6 by nia.
      lia. }
    destruct (Z.eq_dec e1 e2) as [Heq|Hne].
    + rewrite <- Heq. apply Z.mul_le_mono_nonneg_r; [lia|].
      apply div_rne_mono; [done..|]. nia.
    + assert (F64.div_rne (n1 * 2 ^ (- e1)) d1 <= 2 ^ 53) as Hm1
        by (apply div_rne_le; lia).
      destruct Hlo2 as [?|Hlo2]; [lia|].
      assert (2 ^ 52 <= F64.div_rne (n2 * 2 ^ (- e2)) d2) as Hm2
        by (apply div_rne_ge; lia).
      assert (2 * 2 ^ (1074 + e1) <= 2 ^ (1074 + e2)) as Hpp.
      { replace (1074 + e2) with (1 + (1074 + e2 - 1)) by lia.
        rewrite (Z.pow_add_r 2 1 (1074 + e2 - 1)) by lia. change (2 ^ 1) with 2.
        assert (2 ^ (1074 + e1) <= 2 ^ (1074 + e2 - 1))
          by (apply Z.pow_le_mono_r; lia).
        lia. }
      transitivity (2 ^ 53 * 2 ^ (1074 + e1)); [nia|].
      transitivity (2 ^ 52 * 2 ^ (1074 + e2)); [lia|nia].
Qed.

(** The order of the values is that of the values in units of 2^-1074. *)
Lemma value_le_scaled x1 x2 :
  small_nonneg x1 -> small_nonneg x2 -> scaled x1 <= scaled x2 ->
  (F64.value x1 <= F64.value x2)%Q.
Proof.
  intros H1 H2 Hle. pose proof (scaled_nonneg x2 H2) as Hs2.
  destruct x1 as [s1| | |s1 m1 e1]; try done;
    destruct x2 as [s2| | |s2 m2 e2]; try done.
  - destruct H2 as [-> He2]. unfold F64.value, Qle. cbn [Qnum Qden].
    pose proof (pow2_pos e2). lia.
  - destruct H1 as [-> He1]. cbn [scaled] in Hle.
    assert (0 < 2 ^ (e1 + 1074)) by (apply Z.pow_pos_nonneg; lia). lia.
  - destruct H1 as [-> He1]. destruct H2 as [-> He2]. cbn [scaled] in Hle.
    unfold F64.value, Qle. cbn [Qnum Qden].
    rewrite !Z2Pos.id by apply pow2_pos.
    rewrite (pow2_nonpos e1), (pow2_nonpos e2) by lia.
    rewrite (pow2_nonneg (- e1)), (pow2_nonneg (- e2)) by lia.
    assert (2 ^ (e1 + 1074) * 2 ^ (- e1) = 2 ^ 1074) as Hp1
      by (rewrite <- Z.pow_add_r by lia; f_equal; lia).
    assert (2 ^ (e2 + 1074) * 2 ^ (- e2) = 2 ^ 1074) as Hp2
      by (rewrite <- Z.pow_add_r by lia; f_equal; lia).
    assert (0 < 2 ^ (- e1)) by (apply Z.pow_pos_nonneg; lia).
    assert (0 < 2 ^ (- e2)) by (apply Z.pow_pos_nonneg; lia).
    assert (0 < 2 ^ (e1 + 1074)) by (apply Z.pow_pos_nonneg; lia).
    assert (0 < 2 ^ (e2 + 1074)) by (apply Z.pow_pos_nonneg; lia).
    set (P := 2 ^ 1074) in *. assert (0 < P) by (subst P; apply Z.pow_pos_nonneg; lia).
    assert (Z.pos m1 * 2 ^ (- e2) * P <= Z.pos m2 * 2 ^ (- e1) * P); [|nia].
    rewrite <- Hp1 at 1. rewrite <- Hp2. 
    assert (Z.pos m1 * 2 ^ (e1 + 1074) * (2 ^ (- e2) * 2 ^ (- e1))
            <= Z.pos m2 * 2 ^ (e2 + 1074) * (2 ^ (- e2) * 2 ^ (- e1)))
      by (apply Z.mul_le_mono_nonneg_r; nia).
    nia.
Qed.
End F64_order.

Section score_order.
Import SpecFloat.
Local Open Scope Z_scope.

Lemma truediv_round_frac t p :
  0 <= t <= p -> 0 < p ->
  F64.truediv t p = Ok (F64.round_frac false t p)
  /\ small_nonneg (F64.round_frac false t p)
  /\ nonneg_le 1 (F64.round_frac false t p).
Proof.
  intros Ht Hp.
  destruct (round_frac_scaled t p ltac:(lia) Hp ltac:(lia)) as [Hg _].
  pose proof (round_frac_le 1 t p ltac:(lia) Hp ltac:(lia) ltac:(lia)) as Hle.
  split; [|by split].
  unfold F64.truediv.
  replace (p =? 0) with false by (symmetry; apply Z.eqb_neq; lia).
  replace (t <? 0) with false by (symmetry; apply Z.ltb_ge; lia).
  replace (p <? 0) with false by (symmetry; apply Z.ltb_ge; lia).
  rewrite !Z.abs_eq by lia. cbn [xorb].
  by destruct (F64.round_frac false t p).
Qed.

(** The product with 100.0 keeps the order of floats between 0 and 1. *)
Lemma fmul_100_mono q1 q2 :
  small_nonneg q1 -> small_nonneg q2 -> nonneg_le 1 q2 ->
  scaled q1 <= scaled q2 ->
  small_nonneg (F64.fmul q1 F64.f100)
  /\ small_nonneg (F64.fmul q2 F64.f100)
  /\ scaled (F64.fmul q1 F64.f100) <= scaled (F64.fmul q2 F64.f100).
Proof.
  intros H1 H2 Hb Hle.
  assert (forall m e, -1074 <= e <= 0 ->
            F64.fmul (S754_finite false m e) F64.f100
            = F64.round_frac false (Zpos m * 7036874417766400) (2 ^ (46 - e)))
    as Hfmul.
  { intros m e He. unfold F64.fmul, F64.f100. cbn [xorb].
    rewrite (pow2_nonpos (e + -46)), (pow2_nonneg (- (e + -46))) by lia.
    rewrite Pos2Z.inj_mul, Z.mul_1_r. do 2 f_equal. lia. }
  assert (forall m e, -1074 <= e <= 0 ->
            Zpos m * F64.pow2 e <= 1 * F64.pow2 (- e) ->
            Zpos m * 7036874417766400 <= 2 ^ 52 * 2 ^ (46 - e)) as Hbound.
  { intros m e He Hm.
    rewrite (pow2_nonpos e), (pow2_nonneg (- e)) in Hm by lia.
    replace (46 - e) with (46 + - e) by lia. rewrite Z.pow_add_r by lia.
    assert (0 < 2 ^ (- e)) by (apply Z.pow_pos_nonneg; lia).
    change (2 ^ 46) with 70368744177664. change (2 ^ 52) with 4503599627370496.
    nia. }
  assert (forall (m : positive) e, -1074 <= e <= 0 -> 0 < 2 ^ (46 - e)) as Hpos
    by (intros; apply Z.pow_pos_nonneg; lia).
  destruct q1 as [s1| | |s1 m1 e1]; try done;
    destruct q2 as [s2| | |s2 m2 e2]; try done.
  - destruct s1, s2; try discriminate.
    assert (F64.fmul (S754_zero false) F64.f100 = S754_zero false) as ->
      by reflexivity.
    split; [reflexivity|]. split; [reflexivity|]. apply Z.le_refl.
  - unfold small_nonneg in H1. subst s1. destruct H2 as [-> He2].
    destruct Hb as [_ Hb]. rewrite (Hfmul m2 e2 He2).
    destruct (round_frac_scaled (Zpos m2 * 7036874417766400) (2 ^ (46 - e2)))
      as [Hg _]; [lia|by apply Hpos|by apply Hbound|].
    split; [done|]. split; [done|]. by apply scaled_nonneg.
  - destruct H1 as [-> He1]. cbn [scaled] in Hle.
    assert (0 < 2 ^ (e1 + 1074)) by (apply Z.pow_pos_nonneg; lia). lia.
  - destruct H1 as [-> He1]. destruct H2 as [-> He2]. destruct Hb as [_ Hb].
    cbn [scaled] in Hle.
    rewrite (Hfmul m1 e1 He1), (Hfmul m2 e2 He2).
    pose proof (Hbound m2 e2 He2 Hb) as Hb2.
    pose proof (Hpos m1 e1 He1) as Hp1. pose proof (Hpos m2 e2 He2) as Hp2.
    assert (Zpos m1 * 7036874417766400 * 2 ^ (46 - e2)
            <= Zpos m2 * 7036874417766400 * 2 ^ (46 - e1)) as Hfrac.
    { assert (2 ^ (e1 + 1074) * 2 ^ (46 - e1) = 2 ^ 1120) as Hq1
        by (rewrite <- Z.pow_add_r by lia; f_equal; lia).
      assert (2 ^ (e2 + 1074) * 2 ^ (46 - e2) = 2 ^ 1120) as Hq2
        by (rewrite <- Z.pow_add_r by lia; f_equal; lia).
      assert (0 < 2 ^ (e1 + 1074)) by (apply Z.pow_pos_nonneg; lia).
      assert (0 < 2 ^ (e2 + 1074)) by (apply Z.pow_pos_nonneg; lia).
      set (P := 2 ^ 1120) in *.
      assert (0 < P) by (subst P; apply Z.pow_pos_nonneg; lia).
      assert (Zpos m1 * 2 ^ (e1 + 1074) * (2 ^ (46 - e1) * 2 ^ (46 - e2))
              <= Zpos m2 * 2 ^ (e2 + 1074) * (2 ^ (46 - e1) * 2 ^ (46 - e2)))
        by (apply Z.mul_le_mono_nonneg_r; nia).
      assert (Zpos m1 * 2 ^ (46 - e2) * P <= Zpos m2 * 2 ^ (46 - e1) * P) by nia.
      nia. }
    assert (Zpos m1 * 7036874417766400 <= 2 ^ 52 * 2 ^ (46 - e1)) as Hb1 by nia.
    destruct (round_frac_scaled (Zpos m1 * 7036874417766400) (2 ^ (46 - e1))
                ltac:(lia) Hp1 Hb1) as [Hg1 _].
    destruct (round_frac_scaled (Zpos m2 * 7036874417766400) (2 ^ (46 - e2))
                ltac:(lia) Hp2 Hb2) as [Hg2 _].
    split; [done|]. split; [done|].
    apply round_frac_mono; lia || done.
Qed.

(** [round(x, 1)] keeps the order of floats between 0 and 100. *)
Lemma round1_mono x1 x2 :
  small_nonneg x1 -> small_nonneg x2 -> nonneg_le 100 x2 ->
  scaled x1 <= scaled x2 ->
  small_nonneg (F64.round1 x1)
  /\ small_nonneg (F64.round1 x2)
  /\ scaled (F64.round1 x1) <= scaled (F64.round1 x2).
Proof.
  intros H1 H2 Hb Hle.
  assert (forall m e, -1074 <= e <= 0 ->
            F64.round1 (S754_finite false m e)
            = F64.round_frac false (F64.div_rne (10 * Zpos m) (2 ^ (- e))) 10)
    as Hround.
  { intros m e He. unfold F64.round1.
    by rewrite (pow2_nonpos e), (pow2_nonneg (- e)), Z.mul_1_r by lia. }
  assert (forall e, -1074 <= e <= 0 -> 0 < 2 ^ (- e)) as Hpos
    by (intros; apply Z.pow_pos_nonneg; lia).
  assert (forall m e, -1074 <= e <= 0 ->
            0 <= F64.div_rne (10 * Zpos m) (2 ^ (- e))) as Hk0
    by (intros; apply div_rne_nonneg; [lia|by apply Hpos]).
  assert (forall m e, -1074 <= e <= 0 ->
            Zpos m * F64.pow2 e <= 100 * F64.pow2 (- e) ->
            F64.div_rne (10 * Zpos m) (2 ^ (- e)) <= 1000) as Hk.
  { intros m e He Hm.
    rewrite (pow2_nonpos e), (pow2_nonneg (- e)) in Hm by lia.
    apply div_rne_le; [by apply Hpos|lia]. }
  destruct x1 as [s1| | |s1 m1 e1]; try done;
    destruct x2 as [s2| | |s2 m2 e2]; try done.
  - destruct s1; [done|]. destruct H2 as [-> He2].
    destruct Hb as [_ Hb]. rewrite (Hround m2 e2 He2).
    destruct (round_frac_scaled (F64.div_rne (10 * Zpos m2) (2 ^ (- e2))) 10)
      as [Hg _]; [by apply Hk0|lia|specialize (Hk m2 e2 He2 Hb); lia|].
    split; [done|]. split; [done|]. by apply scaled_nonneg.
  - destruct H1 as [-> He1]. cbn [scaled] in Hle.
    assert (0 < 2 ^ (e1 + 1074)) by (apply Z.pow_pos_nonneg; lia). lia.
  - destruct H1 as [-> He1]. destruct H2 as [-> He2]. destruct Hb as [_ Hb].
    cbn [scaled] in Hle.
    rewrite (Hround m1 e1 He1), (Hround m2 e2 He2).
    pose proof (Hk m2 e2 He2 Hb) as Hk2.
    pose proof (Hk0 m1 e1 He1) as Hk10. pose proof (Hk0 m2 e2 He2) as Hk20.
    pose proof (Hpos e1 He1) as Hp1. pose proof (Hpos e2 He2) as Hp2.
    assert (F64.div_rne (10 * Zpos m1) (2 ^ (- e1))
            <= F64.div_rne (10 * Zpos m2) (2 ^ (- e2))) as Hkk.
    { apply div_rne_mono; [done..|].
      assert (2 ^ (e1 + 1074) * 2 ^ (- e1) = 2 ^ 1074) as Hq1
        by (rewrite <- Z.pow_add_r by lia; f_equal; lia).
      assert (2 ^ (e2 + 1074) * 2 ^ (- e2) = 2 ^ 1074) as Hq2
        by (rewrite <- Z.pow_add_r by lia; f_equal; lia).
      assert (0 < 2 ^ (e1 + 1074)) by (apply Z.pow_pos_nonneg; lia).
      assert (0 < 2 ^ (e2 + 1074)) by (apply Z.pow_pos_nonneg; lia).
      set (P := 2 ^ 1074) in *.
      assert (0 < P) by (subst P; apply Z.pow_pos_nonneg; lia).
      assert (Zpos m1 * 2 ^ (e1 + 1074) * (2 ^ (- e1) * 2 ^ (- e2))
              <= Zpos m2 * 2 ^ (e2 + 1074) * (2 ^ (- e1) * 2 ^ (- e2)))
        by (apply Z.mul_le_mono_nonneg_r; nia).
      assert (Zpos m1 * 2 ^ (- e2) * P <= Zpos m2 * 2 ^ (- e1) * P) by nia.
      nia. }
    destruct (round_frac_scaled (F64.div_rne (10 * Zpos m1) (2 ^ (- e1))) 10)
      as [Hg1 _]; [done|lia|lia|].
    destruct (round_frac_scaled (F64.div_rne (10 * Zpos m2) (2 ^ (- e2))) 10)
      as [Hg2 _]; [done|lia|lia|].
    split; [done|]. split; [done|].
    apply round_frac_mono; lia.
Qed.

(** X25: more points never give a lower score.  For a positive max_points
    [p] and totals [0 <= t1 <= t2 <= p], both scores
    [round(t / p * 100, 1)] are floats, and the one of [t1] is at most the
    one of [t2]: none of the three roundings (of the division, of the
    product and of [round]) reverses the order. *)
Theorem normalized_score_monotone (t1 t2 p : Z) :
  0 <= t1 <= t2 -> t2 <= p -> 0 < p ->
  exists x1 x2,
    normalized_score t1 p = Ok (PyFloat x1)
    /\ normalized_score t2 p = Ok (PyFloat x2)
    /\ (F64.value x1 <= F64.value x2)%Q.
Proof.
  intros Ht1 Ht2 Hp. unfold normalized_score.
  rewrite (proj2 (Z.ltb_lt 0 p) Hp).
  destruct (truediv_round_frac t1 p ltac:(lia) Hp) as (-> & Hg1 & _).
  destruct (truediv_round_frac t2 p ltac:(lia) Hp) as (-> & Hg2 & Hb2).
  eexists _, _. split; [reflexivity|]. split; [reflexivity|].
  pose proof (round_frac_mono t1 p t2 p ltac:(lia) Hp Hp ltac:(nia) ltac:(lia))
    as Hq.
  destruct (fmul_100_mono _ _ Hg1 Hg2 Hb2 Hq) as (Hx1 & Hx2 & Hx).
  destruct (round1_mono _ _ Hx1 Hx2 (fmul_100_le _ Hb2) Hx) as (Hr1 & Hr2 & Hr).
  by apply value_le_scaled.
Qed.

Lemma normalized_score_monotone_witness :
  exists x1 x2,
    normalized_score 1 3 = Ok (PyFloat x1)
    /\ normalized_score 2 3 = Ok (PyFloat x2)
    /\ (F64.value x1 <= F64.value x2)%Q.
Proof. apply normalized_score_monotone; lia. Defined.
End score_order.
